(** * monorail-scraper: the OSS-Fuzz bug report parser

    A shallow embedding of
      - [monorail_scraper/utils/string_util.py]  ([capture], [almost_equal])
      - [monorail_scraper/oss_fuzz/oss_fuzz_bug_report_parser.py]
    together with the fragment of Python's [str] and [re] that these two
    files use, and the properties of the parser stated over it. *)

From Stdlib Require Import ZArith NArith String Ascii Lia Bool.
From stdpp Require Import base option list gmap.

Local Open Scope N_scope.

(** ** Python strings

    A Python [str] is a sequence of Unicode code points. *)

Definition char := N.
Definition str := list char.

Definition LF : char := 10.

(** Reads a literal the way Python reads a (non raw) string literal whose
    only escape is backslash-n. *)
Fixpoint lit (s : string) : str :=
  match s with
  | EmptyString => []
  | String "\"%char (String "n"%char s') => LF :: lit s'
  | String c s' => N_of_ascii c :: lit s'
  end.

(** One-character literal. *)
Definition chr (s : string) : char :=
  match lit s with c :: _ => c | [] => 0 end.

Definition in_range (lo hi c : char) : bool := (lo <=? c) && (c <=? hi).

(** [Py_UNICODE_ISSPACE]: the code points for which [str.isspace] holds;
    [str.strip] and the pattern class [\s] both use it. *)
Definition is_space (c : char) : bool :=
  in_range 9 13 c || in_range 28 32 c || (c =? 133) || (c =? 160)
  || (c =? 5760) || in_range 8192 8202 c || (c =? 8232) || (c =? 8233)
  || (c =? 8239) || (c =? 8287) || (c =? 12288).

Fixpoint lstrip (s : str) : str :=
  match s with
  | c :: s' => if is_space c then lstrip s' else s
  | [] => []
  end.
Definition rstrip (s : str) : str := reverse (lstrip (reverse s)).

(** [s.strip()] *)
Definition strip (s : str) : str := rstrip (lstrip s).

(** [s.split(sep)] for a one-character separator. *)
Fixpoint split (sep : char) (s : str) : list str :=
  match s with
  | [] => [[]]
  | c :: s' =>
      if c =? sep then [] :: split sep s'
      else match split sep s' with
           | h :: t => (c :: h) :: t
           | [] => [[c]]
           end
  end.

(** [s.split(sep, maxsplit=n)] for a one-character separator. *)
Fixpoint split_max (sep : char) (n : nat) (s : str) {struct s} : list str :=
  match n with
  | O => [s]
  | S n' =>
      match s with
      | [] => [[]]
      | c :: s' =>
          if c =? sep then [] :: split_max sep n' s'
          else match split_max sep n s' with
               | h :: t => (c :: h) :: t
               | [] => [[c]]
               end
      end
  end.

(** [s.startswith(p)] *)
Fixpoint startswith (p s : str) : bool :=
  match p, s with
  | [], _ => true
  | a :: p', b :: s' => (a =? b) && startswith p' s'
  | _ :: _, [] => false
  end.

(** [sub in s] *)
Fixpoint contains (sub s : str) : bool :=
  startswith sub s
  || match s with
     | _ :: s' => contains sub s'
     | [] => false
     end.

(** The Unicode character database of the Python runtime, outside the ASCII
    range: the full case folding of a code point and whether it is
    alphanumeric ([Py_UNICODE_ISALNUM]).  The repository does not contain
    these tables, so everything below holds for every such database. *)
Class Unicode := {
  fold_ext : char -> str;
  alnum_ext : char -> bool
}.

Section Tables.
Context {U : Unicode}.

Definition casefold_char (c : char) : str :=
  if c <? 128 then [if in_range 65 90 c then c + 32 else c]
  else fold_ext c.

(** [s.casefold()] *)
Definition casefold (s : str) : str := flat_map casefold_char s.

Definition is_alnum (c : char) : bool :=
  if c <? 128 then in_range 48 57 c || in_range 65 90 c || in_range 97 122 c
  else alnum_ext c.

(** The pattern class [\w]. *)
Definition is_word (c : char) : bool := is_alnum c || (c =? 95).
End Tables.

(** ** Python's [re]: the backtracking matcher

    The fragment the repository's patterns are written in: literals, single
    character sets, a set repeated greedily or lazily, sequence, alternation
    and one capturing group. *)

Inductive cset :=
| CChar (c : char)          (* an ordinary character, [\n] *)
| CDot                      (* [.] *)
| CSpace                    (* [\s] *)
| CNonWord                  (* [\W] *)
| CRange (lo hi : char)     (* [a-z] inside a class *)
| CUnion (a b : cset).      (* [ab] *)

Inductive regex :=
| Lit (l : str)                                  (* literal text *)
| One (a : cset)                                 (* one character *)
| Rep (a : cset) (lo : nat) (greedy : bool)      (* a*, a+, a*?, a+? *)
| Cat (r1 r2 : regex)
| Alt (r1 r2 : regex)                            (* r1|r2, also (?:r1|r2) *)
| Grp (r : regex).                               (* the capturing group 1 *)

(** [re.DOTALL], the only flag the repository passes; [false] is flags 0. *)
Definition DOTALL : bool := true.
Definition NOFLAGS : bool := false.

(** ** Exceptions and results *)

Inductive exn :=
| Warning (pattern : regex) (input : str) (groupnum : nat)
| ScrapeException (msg : str)
| AttributeError
| IndexError.

Inductive result (A : Type) :=
| Ok (a : A)
| Raise (e : exn).
Arguments Ok {A} a.
Arguments Raise {A} e.

#[global] Instance result_ret : MRet result := fun A a => Ok a.
#[global] Instance result_bind : MBind result := fun A B f m =>
  match m with
  | Ok a => f a
  | Raise e => Raise e
  end.

(** ** The matcher *)

Module Re.
Section Engine.
Context {U : Unicode}.
Context {A : Type}.
(** [dotall]: whether [re.DOTALL] is set. *)
Variable dotall : bool.

Fixpoint cset_match (a : cset) (c : char) : bool :=
  match a with
  | CChar c' => c =? c'
  | CDot => dotall || negb (c =? LF)
  | CSpace => is_space c
  | CNonWord => negb (is_word c)
  | CRange lo hi => in_range lo hi c
  | CUnion a1 a2 => cset_match a1 c || cset_match a2 c
  end.

Fixpoint strip_prefix (l s : str) : option str :=
  match l, s with
  | [], _ => Some s
  | a :: l', b :: s' => if a =? b then strip_prefix l' s' else None
  | _ :: _, [] => None
  end.

(** Lazy repetition: the continuation is tried first, one more character
    is taken only when it fails. *)
Fixpoint rep_lazy (p : char -> bool) (lo : nat) (s : str)
         (k : str -> option A) {struct s} : option A :=
  match lo with
  | O =>
      match k s with
      | Some x => Some x
      | None =>
          match s with
          | c :: s' => if p c then rep_lazy p O s' k else None
          | [] => None
          end
      end
  | S lo' =>
      match s with
      | c :: s' => if p c then rep_lazy p lo' s' k else None
      | [] => None
      end
  end.

(** Greedy repetition: as many characters as possible are taken first,
    they are given back one at a time while the continuation fails. *)
Fixpoint rep_greedy (p : char -> bool) (lo : nat) (s : str)
         (k : str -> option A) {struct s} : option A :=
  let stop := match lo with O => k s | S _ => None end in
  match s with
  | c :: s' =>
      if p c then
        match rep_greedy p (pred lo) s' k with
        | Some x => Some x
        | None => stop
        end
      else stop
  | [] => stop
  end.

(** [run r s g k]: match [r] at the start of [s] with group 1 holding [g],
    and hand the rest of the text and the group to [k]; the first
    alternative for which [k] succeeds wins. *)
Fixpoint run (r : regex) (s : str) (g : option str)
         (k : str -> option str -> option A) : option A :=
  match r with
  | Lit l =>
      match strip_prefix l s with
      | Some s' => k s' g
      | None => None
      end
  | One a =>
      match s with
      | c :: s' => if cset_match a c then k s' g else None
      | [] => None
      end
  | Rep a lo greedy =>
      (if greedy then rep_greedy else rep_lazy)
        (cset_match a) lo s (fun s' => k s' g)
  | Cat r1 r2 => run r1 s g (fun s' g' => run r2 s' g' k)
  | Alt r1 r2 =>
      match run r1 s g k with
      | Some x => Some x
      | None => run r2 s g k
      end
  | Grp r1 =>
      run r1 s g (fun s' _ => k s' (Some (take (length s - length s') s)))
  end.
End Engine.

Section Matching.
Context {U : Unicode}.

(** A match object: the pattern, the matched text (group 0) and group 1. *)
Record match_obj := {
  m_re : regex;
  m_whole : str;
  m_group1 : option str
}.

Fixpoint has_group (r : regex) : bool :=
  match r with
  | Grp _ => true
  | Cat r1 r2 | Alt r1 r2 => has_group r1 || has_group r2
  | _ => false
  end.

(** Whether group 1 takes part in every match of the pattern. *)
Fixpoint sets_group (r : regex) : bool :=
  match r with
  | Grp _ => true
  | Cat r1 r2 => sets_group r1 || sets_group r2
  | Alt r1 r2 => sets_group r1 && sets_group r2
  | _ => false
  end.

(** [m.group(n)]; a group that took no part in the match is [None]. *)
Definition group (m : match_obj) (n : nat) : result (option str) :=
  match n with
  | O => Ok (Some (m_whole m))
  | 1%nat => if has_group (m_re m) then Ok (m_group1 m) else Raise IndexError
  | _ => Raise IndexError
  end.

(** A match that starts at the first character of [s]; with [must_advance]
    an empty match is rejected and the matcher backtracks. *)
Definition match_at (dotall must_advance : bool) (r : regex) (s : str)
  : option match_obj :=
  run dotall r s None (fun s' g =>
    if must_advance && (length s' =? length s)%nat then None
    else Some {| m_re := r;
                 m_whole := take (length s - length s') s;
                 m_group1 := g |}).

(** [pattern.search(s)]: the leftmost match. *)
Fixpoint search (dotall : bool) (r : regex) (s : str) : option match_obj :=
  match match_at dotall false r s with
  | Some m => Some m
  | None =>
      match s with
      | _ :: s' => search dotall r s'
      | [] => None
      end
  end.

(** The loop of [re.sub]: text between matches is copied, every match is
    replaced by [repl]; after an empty match the next one at the same
    place must advance. *)
Fixpoint sub_loop (fuel : nat) (dotall adv : bool) (r : regex)
         (repl s : str) : str :=
  match fuel with
  | O => s
  | S fuel' =>
      match match_at dotall adv r s with
      | Some m =>
          let n := length (m_whole m) in
          repl ++ sub_loop fuel' dotall (n =? 0)%nat r repl (drop n s)
      | None =>
          match s with
          | c :: s' => c :: sub_loop fuel' dotall false r repl s'
          | [] => []
          end
      end
  end.

(** What the pattern can match, without the order in which the matcher
    tries the alternatives: [matches dotall r s g s' g'] when [r] matches
    a prefix of [s] and leaves [s'], taking group 1 from [g] to [g']. *)
Inductive matches (dotall : bool)
  : regex -> str -> option str -> str -> option str -> Prop :=
| matches_lit l s g :
    matches dotall (Lit l) (l ++ s) g s g
| matches_one a c s g :
    cset_match dotall a c = true ->
    matches dotall (One a) (c :: s) g s g
| matches_rep a lo greedy w s g :
    Forall (fun c => cset_match dotall a c = true) w ->
    (lo <= length w)%nat ->
    matches dotall (Rep a lo greedy) (w ++ s) g s g
| matches_cat r1 r2 s g s1 g1 s2 g2 :
    matches dotall r1 s g s1 g1 ->
    matches dotall r2 s1 g1 s2 g2 ->
    matches dotall (Cat r1 r2) s g s2 g2
| matches_alt_l r1 r2 s g s' g' :
    matches dotall r1 s g s' g' ->
    matches dotall (Alt r1 r2) s g s' g'
| matches_alt_r r1 r2 s g s' g' :
    matches dotall r2 s g s' g' ->
    matches dotall (Alt r1 r2) s g s' g'
| matches_grp r s g s' g' :
    matches dotall r s g s' g' ->
    matches dotall (Grp r) s g s' (Some (take (length s - length s') s)).

(** The pattern can match at the start of [s]. *)
Definition can_match (dotall : bool) (r : regex) (s : str) : Prop :=
  exists s' g', matches dotall r s None s' g'.

(** [re.sub(r, repl, s)] *)
Definition sub (r : regex) (repl s : str) : str :=
  sub_loop (2 * length s + 2) NOFLAGS false r repl s.
End Matching.
End Re.

Infix "+++" := Cat (right associativity, at level 60).

(** [a+?], [a*?], [a+], [a*] *)
Definition lazy_plus (a : cset) : regex := Rep a 1 false.
Definition lazy_star (a : cset) : regex := Rep a 0 false.
Definition greedy_plus (a : cset) : regex := Rep a 1 true.
Definition greedy_star (a : cset) : regex := Rep a 0 true.

(** The class [[\n$]]: a line feed or a dollar sign. *)
Definition nl_or_dollar : cset := CUnion (CChar LF) (CChar (chr "$")).

(** ** string_util.py *)

Module StringUtil.
Section StringUtil.
Context {U : Unicode}.

Definition capture (input : str) (regex : regex) (pattern_flags : bool)
           (groupnum : nat) (fail_gently : bool) : result (option str) :=
  match Re.search pattern_flags regex input with
  | None =>
      if negb fail_gently then Raise (Warning regex input groupnum)
      else Ok None
  | Some m => Re.group m groupnum
  end.

(** [r'\W+'] *)
Definition re_nonword_run : regex := greedy_plus CNonWord.

Definition is_None {A} (o : option A) : bool :=
  match o with None => true | Some _ => false end.

Definition almost_equal (str1 str2 : option str) : bool :=
  match str1, str2 with
  | Some s1, Some s2 =>
      let str1_processed := Re.sub re_nonword_run [] (casefold (strip s1)) in
      let str2_processed := Re.sub re_nonword_run [] (casefold (strip s2)) in
      bool_decide (str1_processed = str2_processed)
  | _, _ => is_None str1 && is_None str2
  end.
End StringUtil.
End StringUtil.

(** ** The records the parser reads and builds *)

(** Modelled from the spec: the [Comment] dataclass of
    [monorail_scraper.issue.issue], with the two fields the parser reads. *)
Record Comment := {
  comment_author : str;
  comment_body : str
}.

(** Modelled from the spec: the [OSSFuzzBugReport] dataclass of
    [monorail_scraper.oss_fuzz.oss_fuzz_bug_report].  A field holds whatever
    the extraction rule returned: a [str], or Python's [None]. *)
Record OSSFuzzBugReport := {
  project : option str;
  fuzzing_engine : option str;
  fuzz_target_binary : option str;
  job_type : option str;
  platform_id : option str;
  crash_type : option str;
  crash_addr : option str;
  crash_state : list str;
  sanitizer : option str;
  regressed_commits_url : option str;
  fixed_commits_url : option str;
  testcase_url : option str
}.

(** Modelled from the spec: the [Issue] dataclass of
    [monorail_scraper.issue.issue], with the fields the parser reads and the
    slot it fills. *)
Record Issue := {
  issue_id : Z;
  issue_author : str;
  issue_project : str;
  issue_description : str;
  issue_metadata : gmap str str;
  issue_comments : list Comment;
  oss_fuzz_bug_report : option OSSFuzzBugReport
}.

(** [issue.oss_fuzz_bug_report = report] *)
Definition set_oss_fuzz_bug_report (issue : Issue) (report : OSSFuzzBugReport)
  : Issue :=
  {| issue_id := issue_id issue;
     issue_author := issue_author issue;
     issue_project := issue_project issue;
     issue_description := issue_description issue;
     issue_metadata := issue_metadata issue;
     issue_comments := issue_comments issue;
     oss_fuzz_bug_report := Some report |}.

(** ** oss_fuzz_bug_report_parser.py *)

Module Parser.
Import StringUtil.

(** The patterns, in the order of the source. *)

(** [r'Job Type: (.+?)[\n$]'] *)
Definition re_job_type : regex :=
  Lit (lit "Job Type: ") +++ Grp (lazy_plus CDot) +++ One nl_or_dollar.
(** [r'Target: (.+?)[\n$]'] *)
Definition re_target : regex :=
  Lit (lit "Target: ") +++ Grp (lazy_plus CDot) +++ One nl_or_dollar.
(** [r'Project: (.+?)[\n$]'] *)
Definition re_project : regex :=
  Lit (lit "Project: ") +++ Grp (lazy_plus CDot) +++ One nl_or_dollar.
(** [r'Fuzzing [Ee]ngine: (.+?)[\n$]'] *)
Definition re_fuzzing_engine : regex :=
  Lit (lit "Fuzzing ") +++ One (CUnion (CChar (chr "E")) (CChar (chr "e")))
  +++ Lit (lit "ngine: ") +++ Grp (lazy_plus CDot) +++ One nl_or_dollar.
(** [r'Fuzz [Tt]arget: (.+?)[\n$]'] *)
Definition re_fuzz_target : regex :=
  Lit (lit "Fuzz ") +++ One (CUnion (CChar (chr "T")) (CChar (chr "t")))
  +++ Lit (lit "arget: ") +++ Grp (lazy_plus CDot) +++ One nl_or_dollar.
(** [r'Fuzz target binary: (.+?)[\n$]'] *)
Definition re_fuzz_target_binary : regex :=
  Lit (lit "Fuzz target binary: ") +++ Grp (lazy_plus CDot)
  +++ One nl_or_dollar.
(** [r'Fuzzer binary: (.+?)[\n$]'] *)
Definition re_fuzzer_binary : regex :=
  Lit (lit "Fuzzer binary: ") +++ Grp (lazy_plus CDot) +++ One nl_or_dollar.
(** [r'Fuzzer: (.+?)[\n$]'] *)
Definition re_fuzzer : regex :=
  Lit (lit "Fuzzer: ") +++ Grp (lazy_plus CDot) +++ One nl_or_dollar.
(** [r'Platform Id: (.+?)[\n$]'] *)
Definition re_platform_id : regex :=
  Lit (lit "Platform Id: ") +++ Grp (lazy_plus CDot) +++ One nl_or_dollar.
(** [r'Crash Type: (.*?)[\n$]'] *)
Definition re_crash_type : regex :=
  Lit (lit "Crash Type: ") +++ Grp (lazy_star CDot) +++ One nl_or_dollar.
(** [r'Crash Address: (.*?)[\n$]'] *)
Definition re_crash_address : regex :=
  Lit (lit "Crash Address: ") +++ Grp (lazy_star CDot) +++ One nl_or_dollar.
(** [r'Crash State:\n(.*?)\n(?:Sanitizer|\s*\n)'] *)
Definition re_crash_state : regex :=
  Lit (lit "Crash State:\n") +++ Grp (lazy_star CDot) +++ One (CChar LF)
  +++ Alt (Lit (lit "Sanitizer")) (greedy_star CSpace +++ One (CChar LF)).
(** [r'Sanitizer: (.+?)[\n$]'] *)
Definition re_sanitizer : regex :=
  Lit (lit "Sanitizer: ") +++ Grp (lazy_plus CDot) +++ One nl_or_dollar.
(** [r'Regressed: (.+?)[\n$]'] *)
Definition re_regressed : regex :=
  Lit (lit "Regressed: ") +++ Grp (lazy_plus CDot) +++ One nl_or_dollar.
(** [r'Crash Revision: (.+?)[\n$]'] *)
Definition re_crash_revision : regex :=
  Lit (lit "Crash Revision: ") +++ Grp (lazy_plus CDot) +++ One nl_or_dollar.
(** [r'Fixed: (.+?)[\n$]'] *)
Definition re_fixed : regex :=
  Lit (lit "Fixed: ") +++ Grp (lazy_plus CDot) +++ One nl_or_dollar.
(** [r'ClusterFuzz testcase [0-9]+ is verified as fixed in (.+?)[\n$]'] *)
Definition re_verified_fixed : regex :=
  Lit (lit "ClusterFuzz testcase ")
  +++ greedy_plus (CRange (chr "0") (chr "9"))
  +++ Lit (lit " is verified as fixed in ") +++ Grp (lazy_plus CDot)
  +++ One nl_or_dollar.
(** [r'Reproducer Testcase: (.+?)[\n$]'] *)
Definition re_reproducer_testcase : regex :=
  Lit (lit "Reproducer Testcase: ") +++ Grp (lazy_plus CDot)
  +++ One nl_or_dollar.
(** [r'Minimized Testcase \(.+?\): (.+?)[\n$]'] *)
Definition re_minimized_testcase : regex :=
  Lit (lit "Minimized Testcase (") +++ lazy_plus CDot +++ Lit (lit "): ")
  +++ Grp (lazy_plus CDot) +++ One nl_or_dollar.
(** [r'Unminimized Testcase: (.+?)[\n$]'] *)
Definition re_unminimized_testcase : regex :=
  Lit (lit "Unminimized Testcase: ") +++ Grp (lazy_plus CDot)
  +++ One nl_or_dollar.
(** [r'Download: (.+?)[\n$]'] *)
Definition re_download : regex :=
  Lit (lit "Download: ") +++ Grp (lazy_plus CDot) +++ One nl_or_dollar.

(** A method call on a value that may be [None]. *)
Definition as_str (v : option str) : result str :=
  match v with
  | Some s => Ok s
  | None => Raise AttributeError
  end.

(** [l[0]], [l[1]] and [l[-1]] *)
Definition item {A} (l : list A) (i : nat) : result A :=
  match l !! i with
  | Some x => Ok x
  | None => Raise IndexError
  end.
Definition item_last {A} (l : list A) : result A :=
  match last l with
  | Some x => Ok x
  | None => Raise IndexError
  end.

Definition special_fuzzers : list str :=
  [lit "js_fuzzer"; lit "ftfuzzer"; lit "magic_fuzzer"; lit "guetzli_fuzzer"].

(** [v in l] for a value that may be [None] and a list of strings. *)
Definition in_list (v : option str) (l : list str) : bool :=
  match v with
  | Some s => bool_decide (s ∈ l)
  | None => false
  end.

Section Parser.
Context {U : Unicode}.

Definition is_oss_fuzz_bug_report (issue : Issue) : result bool :=
  let is_oss_fuzz :=
    almost_equal (Some (lit "oss-fuzz")) (Some (issue_project issue)) in
  let authored_by_clusterfuzz :=
    almost_equal (Some (lit "ClusterFuzz-External"))
                 (Some (issue_author issue)) in
  if is_oss_fuzz && is_None (issue_metadata issue !! lit "Type") then
    Raise (ScrapeException (lit "Missing Type metadata"))
  else
    let is_nonsecurity_bug_report :=
      almost_equal (Some (lit "Bug"))
                   (Some (default (lit "") (issue_metadata issue !! lit "Type"))) in
    let is_security_bug_report :=
      almost_equal (Some (lit "Bug-Security"))
                   (Some (default (lit "") (issue_metadata issue !! lit "Type"))) in
    Ok (is_oss_fuzz && authored_by_clusterfuzz
        && (is_nonsecurity_bug_report || is_security_bug_report)).

Definition _get_jobtype (description : str) : result (option str) :=
  capture description re_job_type NOFLAGS 1 false.

Definition _get_project (description : str) (id : Z) : result (option str) :=
  if (id <=? 135)%Z then
    jobtype ← _get_jobtype description;
    jobtype ← as_str jobtype;
    project ← item_last (split (chr "_") (strip jobtype));
    Ok (Some project)
  else if (135 <=? id)%Z && (id <=? 212)%Z then
    capture description re_target NOFLAGS 1 false
  else
    capture description re_project NOFLAGS 1 false.

Definition _get_fuzzing_engine (description : str) (id : Z)
  : result (option str) :=
  if contains (lit "Fuzzer: js_fuzzer") description then
    Ok (Some (lit "js_fuzzer"))
  else if (id <=? 16307)%Z then
    jobtype ← _get_jobtype description;
    jobtype ← as_str jobtype;
    if startswith (lit "afl") jobtype then Ok (Some (lit "afl"))
    else if startswith (lit "libfuzzer") jobtype then Ok (Some (lit "libFuzzer"))
    else if startswith (lit "honggfuzz") jobtype then Ok (Some (lit "honggfuzz"))
    else
      engine ← item (split (chr "_") jobtype) 0;
      Ok (Some engine)
  else if (id >=? 16308)%Z then
    capture description re_fuzzing_engine NOFLAGS 1 false
  else Ok None.

Definition _get_fuzz_target_binary (description : str) (id : Z)
  : result (option str) :=
  fuzz_target_binary ← capture description re_fuzz_target NOFLAGS 1 true;
  if negb (is_None fuzz_target_binary) then Ok fuzz_target_binary else
  fuzz_target_binary ← capture description re_fuzz_target_binary NOFLAGS 1 true;
  if negb (is_None fuzz_target_binary) then Ok fuzz_target_binary else
  fuzz_target_binary ← capture description re_fuzzer_binary NOFLAGS 1 true;
  if negb (is_None fuzz_target_binary) then Ok fuzz_target_binary else
  fuzzer ← capture description re_fuzzer NOFLAGS 1 false;
  if in_list fuzzer special_fuzzers then Ok fuzzer else
  fuzzer ← as_str fuzzer;
  let tokens := split_max (chr "_") 1 fuzzer in
  if (length tokens <=? 1)%nat then Ok (Some (lit ""))
  else
    fuzz_target_binary ← item (split_max (chr "_") 1 fuzzer) 1;
    Ok (Some fuzz_target_binary).

Definition _get_job_type (description : str) : result (option str) :=
  capture description re_job_type NOFLAGS 1 false.

Definition _get_platform_id (description : str) : result (option str) :=
  platform ← capture description re_platform_id NOFLAGS 1 true;
  if negb (is_None platform) then Ok platform
  else Ok (Some (lit "")).

Definition _get_crash_type (description : str) : result (option str) :=
  capture description re_crash_type NOFLAGS 1 false.

Definition _get_crash_address (description : str) : result (option str) :=
  capture description re_crash_address NOFLAGS 1 false.

(** The loop of [_get_crash_state]: [crash_state] is the list built so
    far. *)
Fixpoint crash_state_loop (lines : list str) (crash_state : list str)
  : list str :=
  match lines with
  | [] => crash_state
  | line :: lines' =>
      let cleaned_line := strip line in
      if (0 <? length cleaned_line)%nat
      then crash_state_loop lines' (crash_state ++ [cleaned_line])
      else crash_state_loop lines' crash_state
  end.

Definition _get_crash_state (description : str) : result (list str) :=
  raw_crash_state ← capture description re_crash_state DOTALL 1 false;
  raw_crash_state ← as_str raw_crash_state;
  let lines := split LF raw_crash_state in
  Ok (crash_state_loop lines []).

Fixpoint _get_sanitizer_from_jobtype_loop (jobtype_words : list str) : str :=
  match jobtype_words with
  | [] => lit ""
  | word :: rest =>
      if almost_equal (Some word) (Some (lit "asan")) then lit "address (ASAN)"
      else if almost_equal (Some word) (Some (lit "ubsan")) then lit "undefined (UBSAN)"
      else if almost_equal (Some word) (Some (lit "msan")) then lit "memory (MSAN)"
      else if almost_equal (Some word) (Some (lit "tsan")) then lit "thread (TSAN)"
      else if almost_equal (Some word) (Some (lit "lsan")) then lit "leak (LSAN)"
      else _get_sanitizer_from_jobtype_loop rest
  end.

Definition _get_sanitizer_from_jobtype (jobtype : option str) : result str :=
  jobtype ← as_str jobtype;
  Ok (_get_sanitizer_from_jobtype_loop (split (chr "_") jobtype)).

Definition _get_sanitizer (description : str) (id : Z) : result (option str) :=
  if (id <=? 383)%Z then
    jobtype ← capture description re_job_type NOFLAGS 1 false;
    sanitizer ← _get_sanitizer_from_jobtype jobtype;
    Ok (Some sanitizer)
  else if (id >=? 384)%Z then
    capture description re_sanitizer NOFLAGS 1 false
  else Ok None.

Definition _get_regressed_commits_url (description : str)
  : result (option str) :=
  url ← capture description re_regressed NOFLAGS 1 true;
  if negb (is_None url) then Ok url else
  url ← capture description re_crash_revision NOFLAGS 1 true;
  if negb (is_None url) then Ok url else
  Ok None.

(** The loop of [_get_fixed_commits_url]; [fixed_commits_url] is the
    variable the loop assigns before it breaks. *)
Fixpoint fixed_commits_loop (pattern : regex) (comments : list Comment)
         (fixed_commits_url : option str) : result (option str) :=
  match comments with
  | [] => Ok fixed_commits_url
  | comment :: comments' =>
      if bool_decide (comment_author comment ≠ lit "ClusterFuzz-External")
      then fixed_commits_loop pattern comments' fixed_commits_url
      else
        match Re.search NOFLAGS pattern (comment_body comment) with
        | None => fixed_commits_loop pattern comments' fixed_commits_url
        | Some m => Re.group m 1
        end
  end.

Definition _get_fixed_commits_url (comments : list Comment) (id : Z)
  : result (option str) :=
  let regex := if (id <=? 14834)%Z then re_fixed else re_verified_fixed in
  fixed_commits_loop regex comments None.

Definition _get_testcase_url (description : str) : result (option str) :=
  url ← capture description re_reproducer_testcase NOFLAGS 1 true;
  if negb (is_None url) then Ok url else
  url ← capture description re_minimized_testcase NOFLAGS 1 true;
  if negb (is_None url) then Ok url else
  url ← capture description re_unminimized_testcase NOFLAGS 1 true;
  if negb (is_None url) then Ok url else
  capture description re_download NOFLAGS 1 false.

Definition parse_oss_fuzz_bug_report_details (issue : Issue)
  : result OSSFuzzBugReport :=
  let id := issue_id issue in
  let description := issue_description issue in
  let comments := issue_comments issue in
  project ← _get_project description id;
  fuzzing_engine ← _get_fuzzing_engine description id;
  fuzz_target_binary ← _get_fuzz_target_binary description id;
  job_type ← _get_job_type description;
  platform_id ← _get_platform_id description;
  crash_type ← _get_crash_type description;
  crash_addr ← _get_crash_address description;
  crash_state ← _get_crash_state description;
  sanitizer ← _get_sanitizer description id;
  regressed_commits_url ← _get_regressed_commits_url description;
  fixed_commits_url ← _get_fixed_commits_url comments id;
  testcase_url ← _get_testcase_url description;
  Ok {| project := project; fuzzing_engine := fuzzing_engine;
        fuzz_target_binary := fuzz_target_binary; job_type := job_type;
        platform_id := platform_id; crash_type := crash_type;
        crash_addr := crash_addr; crash_state := crash_state;
        sanitizer := sanitizer;
        regressed_commits_url := regressed_commits_url;
        fixed_commits_url := fixed_commits_url;
        testcase_url := testcase_url |}.

(** The issue is modified in place: the function returns its result
    together with the issue as it is afterwards. *)
Definition attach_oss_fuzz_bug_report (issue : Issue) : result bool * Issue :=
  match is_oss_fuzz_bug_report issue with
  | Raise e => (Raise e, issue)
  | Ok false => (Ok false, issue)
  | Ok true =>
      match parse_oss_fuzz_bug_report_details issue with
      | Raise e => (Raise e, issue)
      | Ok report => (Ok true, set_oss_fuzz_bug_report issue report)
      end
  end.
End Parser.
End Parser.

(** ** What the rules are meant to compute

    Definitions that follow the words of the specification; the properties
    below compare the parser with them. *)

Module Spec.
Section Spec.
Context {U : Unicode}.

(** Removing every run of non-word characters. *)
Fixpoint drop_nonword (s : str) : str :=
  match s with
  | [] => []
  | c :: s' => if is_word c then c :: drop_nonword s' else drop_nonword s'
  end.

(** Trimmed, case-folded, non-word characters removed. *)
Definition normalize (s : str) : str := drop_nonword (casefold (strip s)).

(** The text before the first [sep]; all of it when there is none. *)
Fixpoint before (sep : char) (s : str) : str :=
  match s with
  | [] => []
  | c :: s' => if c =? sep then [] else c :: before sep s'
  end.

(** The first and the last token of a text delimited by underscores. *)
Definition first_token (s : str) : str := before (chr "_") s.
Definition last_token (s : str) : str :=
  reverse (before (chr "_") (reverse s)).

(** The engine named by a job type: a known prefix, else its first
    token. *)
Definition engine_of_job_type (jt : str) : str :=
  if startswith (lit "afl") jt then lit "afl"
  else if startswith (lit "libfuzzer") jt then lit "libFuzzer"
  else if startswith (lit "honggfuzz") jt then lit "honggfuzz"
  else first_token jt.


(** [\s*\n] can match at the start of [y]: only white space up to a line
    feed. *)
Definition blank_line (y : str) : Prop :=
  exists w z, y = w ++ LF :: z /\ Forall (fun c => is_space c = true) w.

(** What ends the crash state block, after a line feed: the word
    Sanitizer or a blank line. *)
Definition block_end (y : str) : Prop :=
  (exists z, y = lit "Sanitizer" ++ z) \/ blank_line y.

(** What follows the group in the crash state pattern:
    [\n(?:Sanitizer|\s*\n)]. *)
Definition re_block_end : regex :=
  One (CChar LF)
  +++ Alt (Lit (lit "Sanitizer")) (greedy_star CSpace +++ One (CChar LF)).

(** The pattern of the fixed-commits rule for a given id. *)
Definition fixed_pattern (id : Z) : regex :=
  if (id <=? 14834)%Z then Parser.re_fixed else Parser.re_verified_fixed.

(** The twelve rules all return, and [r] holds what they returned. *)
Definition rules_return (issue : Issue) (r : OSSFuzzBugReport) : Prop :=
  let d := issue_description issue in
  let id := issue_id issue in
  Parser._get_project d id = Ok (project r)
  /\ Parser._get_fuzzing_engine d id = Ok (fuzzing_engine r)
  /\ Parser._get_fuzz_target_binary d id = Ok (fuzz_target_binary r)
  /\ Parser._get_job_type d = Ok (job_type r)
  /\ Parser._get_platform_id d = Ok (platform_id r)
  /\ Parser._get_crash_type d = Ok (crash_type r)
  /\ Parser._get_crash_address d = Ok (crash_addr r)
  /\ Parser._get_crash_state d = Ok (crash_state r)
  /\ Parser._get_sanitizer d id = Ok (sanitizer r)
  /\ Parser._get_regressed_commits_url d = Ok (regressed_commits_url r)
  /\ Parser._get_fixed_commits_url (issue_comments issue) id
     = Ok (fixed_commits_url r)
  /\ Parser._get_testcase_url d = Ok (testcase_url r).

(** One of the twelve rules raises [e]. *)
Definition rule_raises (issue : Issue) (e : exn) : Prop :=
  let d := issue_description issue in
  let id := issue_id issue in
  Parser._get_project d id = Raise e
  \/ Parser._get_fuzzing_engine d id = Raise e
  \/ Parser._get_fuzz_target_binary d id = Raise e
  \/ Parser._get_job_type d = Raise e
  \/ Parser._get_platform_id d = Raise e
  \/ Parser._get_crash_type d = Raise e
  \/ Parser._get_crash_address d = Raise e
  \/ Parser._get_crash_state d = Raise e
  \/ Parser._get_sanitizer d id = Raise e
  \/ Parser._get_regressed_commits_url d = Raise e
  \/ Parser._get_fixed_commits_url (issue_comments issue) id = Raise e
  \/ Parser._get_testcase_url d = Raise e.

(** The nine text fields of a report hold a string, which may be empty;
    the crash state is a sequence by its type, and either url may be
    absent. *)
Definition fully_defined (r : OSSFuzzBugReport) : Prop :=
  is_Some (project r) /\ is_Some (fuzzing_engine r)
  /\ is_Some (fuzz_target_binary r) /\ is_Some (job_type r)
  /\ is_Some (platform_id r) /\ is_Some (crash_type r)
  /\ is_Some (crash_addr r) /\ is_Some (sanitizer r)
  /\ is_Some (testcase_url r).
End Spec.
End Spec.

(** A database in which case folding and the alphanumeric class stop at
    ASCII; the examples, whose texts are ASCII, are run with it. *)
Definition ascii_only : Unicode :=
  {| fold_ext c := [c]; alnum_ext _ := false |}.

(** Maximal prefix of characters in [p], and what follows it. *)
Fixpoint skip (p : char -> bool) (s : str) : str :=
  match s with
  | c :: s' => if p c then skip p s' else s
  | [] => []
  end.

(** ** Example texts *)

Definition text_job_and_target : str :=
  lit "Job Type: libfuzzer_asan_alpha\nTarget: beta\n".
Definition text_job_padded : str :=
  lit "Job Type: libfuzzer_asan_alpha \n".
Definition text_job_and_engine : str :=
  lit "Job Type: libfuzzer_asan_alpha\nFuzzing Engine: afl\n".
Definition text_js_fuzzer : str :=
  lit "Job Type: libfuzzer_asan_alpha\nFuzzer: js_fuzzer\n".
Definition text_job_ended : str := lit "Job Type: libfuzzer_asan_alpha\n".
Definition text_job_open : str := lit "Job Type: libfuzzer_asan_alpha".
Definition text_job_dollar : str := lit "Job Type: libfuzzer$asan_alpha\n".

Definition text_crash_block : str :=
  lit "Crash State:\n  top frame\n  middle\n  bottom\n\nSanitizer: ASAN".
Definition text_crash_blank_first : str :=
  lit "Crash State:\n\n  frame\n\nSanitizer: ASAN".
Definition text_crash_open : str :=
  lit "Crash Type: Heap-use-after-free\nCrash State:\n  top frame\n  middle\n  bottom".

Definition comment_unrelated : Comment :=
  {| comment_author := lit "a maintainer";
     comment_body := lit "Fixed: nothing yet\n" |}.
Definition comment_fuzzy_author : Comment :=
  {| comment_author := lit "clusterfuzz-external";
     comment_body :=
       lit "ClusterFuzz testcase 123 is verified as fixed in 00000000\n" |}.
Definition comment_verified : Comment :=
  {| comment_author := lit "ClusterFuzz-External";
     comment_body :=
       lit "ClusterFuzz testcase 123 is verified as fixed in abcd1234\n" |}.
Definition comment_verified_open : Comment :=
  {| comment_author := lit "ClusterFuzz-External";
     comment_body :=
       lit "ClusterFuzz testcase 123 is verified as fixed in abcd1234" |}.
Definition comment_fixed : Comment :=
  {| comment_author := lit "ClusterFuzz-External";
     comment_body := lit "ClusterFuzz has verified this as fixed.\nFixed: https://r/3:4\n" |}.
Definition comment_fixed_open : Comment :=
  {| comment_author := lit "ClusterFuzz-External";
     comment_body := lit "ClusterFuzz has verified this as fixed.\nFixed: https://r/3:4" |}.
Definition comment_verified_again : Comment :=
  {| comment_author := lit "ClusterFuzz-External";
     comment_body :=
       lit "ClusterFuzz testcase 456 is verified as fixed in ffff0000\n" |}.

Definition issue_no_type (author : string) : Issue :=
  {| issue_id := 20000;
     issue_author := lit author;
     issue_project := lit "oss-fuzz";
     issue_description := lit "";
     issue_metadata := ∅;
     issue_comments := [];
     oss_fuzz_bug_report := None |}.

Definition issue_chromium : Issue :=
  {| issue_id := 20000;
     issue_author := lit "ClusterFuzz-External";
     issue_project := lit "chromium";
     issue_description := lit "";
     issue_metadata := ∅;
     issue_comments := [];
     oss_fuzz_bug_report := None |}.

Definition text_full_report : str :=
  lit "Detailed Report: https://oss-fuzz.com/testcase?key=123\n\nProject: alpha\nFuzzing Engine: libFuzzer\nFuzz Target: decode\nJob Type: libfuzzer_asan_alpha\nPlatform Id: linux\n\nCrash Type: Heap-buffer-overflow READ 1\nCrash Address: 0x602000000011\nCrash State:\n  top frame\n  middle\n  bottom\n\nSanitizer: address (ASAN)\n\nRegressed: https://oss-fuzz.com/revisions?range=1:2\n\nReproducer Testcase: https://oss-fuzz.com/download?testcase_id=123\n\n".

Definition issue_in_scope (description : str) : Issue :=
  {| issue_id := 20000;
     issue_author := lit "ClusterFuzz-External";
     issue_project := lit "oss-fuzz";
     issue_description := description;
     issue_metadata := {[ lit "Type" := lit "Bug" ]};
     issue_comments := [comment_unrelated; comment_verified];
     oss_fuzz_bug_report := None |}.

Definition report_full : OSSFuzzBugReport :=
  {| project := Some (lit "alpha");
     fuzzing_engine := Some (lit "libFuzzer");
     fuzz_target_binary := Some (lit "decode");
     job_type := Some (lit "libfuzzer_asan_alpha");
     platform_id := Some (lit "linux");
     crash_type := Some (lit "Heap-buffer-overflow READ 1");
     crash_addr := Some (lit "0x602000000011");
     crash_state := [lit "top frame"; lit "middle"; lit "bottom"];
     sanitizer := Some (lit "address (ASAN)");
     regressed_commits_url :=
       Some (lit "https://oss-fuzz.com/revisions?range=1:2");
     fixed_commits_url := Some (lit "abcd1234");
     testcase_url :=
       Some (lit "https://oss-fuzz.com/download?testcase_id=123") |}.

(** ** Deciding the side conditions on a given text *)

(** Where [sub] first occurs in [s]. *)
Fixpoint find_sub (sub s : str) : option nat :=
  if startswith sub s then Some O
  else match s with
       | [] => None
       | _ :: s' => S <$> find_sub sub s'
       end.

(** [Spec.blank_line] and [Spec.block_end] as tests. *)
Fixpoint blank_line_b (y : str) : bool :=
  match y with
  | [] => false
  | c :: y' => (c =? LF) || (is_space c && blank_line_b y')
  end.

Definition block_end_b (y : str) : bool :=
  startswith (lit "Sanitizer") y || blank_line_b y.

(** The first line feed of [s] after which the block ends. *)
Fixpoint first_end (s : str) : option nat :=
  match s with
  | [] => None
  | c :: s' =>
      if (c =? LF) && block_end_b s' then Some O else S <$> first_end s'
  end.

(** ** The helper the parser defines and does not call *)

(** [r'Reported by ClusterFuzz-External on (.+?) Project Member [\n$]'] *)
Definition re_report_date : regex :=
  Lit (lit "Reported by ClusterFuzz-External on ") +++ Grp (lazy_plus CDot)
  +++ Lit (lit " Project Member ") +++ One nl_or_dollar.

Definition _get_report_date {U : Unicode} (raw_text : str)
  : result (option str) :=
  StringUtil.capture raw_text re_report_date NOFLAGS 1 false.

(** The number of capturing groups of a pattern.  The matcher keeps one
    group, which is all a pattern with one group needs; every pattern of
    the parser has exactly one. *)
Fixpoint count_groups (r : regex) : nat :=
  match r with
  | Grp r1 => S (count_groups r1)
  | Cat r1 r2 | Alt r1 r2 => count_groups r1 + count_groups r2
  | _ => O
  end.

(** ** More of what the rules are meant to compute *)

Module Rules.
Section Rules.
Context {U : Unicode}.

(** An ASCII small letter as its capital; every other code point as it
    is. *)
Definition ascii_upper (c : char) : char :=
  if in_range 97 122 c then c - 32 else c.

(** The sanitizers the parser knows: the word of a job type and the label
    that is returned for it. *)
Definition sanitizers : list (str * str) :=
  [ (lit "asan", lit "address (ASAN)");
    (lit "ubsan", lit "undefined (UBSAN)");
    (lit "msan", lit "memory (MSAN)");
    (lit "tsan", lit "thread (TSAN)");
    (lit "lsan", lit "leak (LSAN)") ].

(** A word of a job type names no sanitizer. *)
Definition no_sanitizer (w : str) : Prop :=
  forall n l, (n, l) ∈ sanitizers -> Spec.normalize w <> n.

(** The exception of an outcome, if it is one. *)
Definition failure {A} (r : result A) : option exn :=
  match r with
  | Ok _ => None
  | Raise e => Some e
  end.

(** What each of the twelve rules raises on an issue, in the order in
    which the parser calls them. *)
Definition rule_failures (issue : Issue) : list (option exn) :=
  let d := issue_description issue in
  let id := issue_id issue in
  [ failure (Parser._get_project d id);
    failure (Parser._get_fuzzing_engine d id);
    failure (Parser._get_fuzz_target_binary d id);
    failure (Parser._get_job_type d);
    failure (Parser._get_platform_id d);
    failure (Parser._get_crash_type d);
    failure (Parser._get_crash_address d);
    failure (Parser._get_crash_state d);
    failure (Parser._get_sanitizer d id);
    failure (Parser._get_regressed_commits_url d);
    failure (Parser._get_fixed_commits_url (issue_comments issue) id);
    failure (Parser._get_testcase_url d) ].

(** The first exception of a list of outcomes. *)
Fixpoint first_failure (l : list (option exn)) : option exn :=
  match l with
  | [] => None
  | Some e :: _ => Some e
  | None :: l' => first_failure l'
  end.

(** A line of a crash state: not empty, no line feed in it, no white
    space at either end. *)
Definition clean_line (l : str) : Prop :=
  l <> [] /\ (LF ∉ l)
  /\ (forall c, head l = Some c -> is_space c = false)
  /\ (forall c, last l = Some c -> is_space c = false).
End Rules.
End Rules.

(** More example texts. *)

Definition text_platform : str :=
  lit "Job Type: libfuzzer_asan_alpha\nPlatform Id: linux\n".
Definition text_crash_fields : str :=
  lit "Crash Type: \nCrash Address: 0x10\nCrash State:\n  f\n\n".
Definition text_revision_then_regressed : str :=
  lit "Crash Revision: https://r/1\nRegressed: https://r/2\n".
Definition text_revision_only : str := lit "Crash Revision: https://r/1\n".
Definition text_download_then_reproducer : str :=
  lit "Download: https://t/1\nReproducer Testcase: https://t/2\n".
Definition text_fuzzer_only : str :=
  lit "Fuzzer: libFuzzer_alpha_decode_fuzzer\nJob Type: libfuzzer_asan_alpha\n".
Definition text_fuzzer_and_target : str :=
  lit "Fuzzer: libFuzzer_alpha_decode\nFuzz target binary: decode_fuzzer\n".
Definition text_sanitizer_line : str :=
  lit "Job Type: libfuzzer_MSan_alpha\nSanitizer: address (ASAN)\n".
Definition text_report_date : str :=
  lit "Reported by ClusterFuzz-External on Mon, Jan 6, 2020 Project Member \n".

Definition text_job_empty : str := lit "Project: alpha\nJob Type: \nCrash Type: x\n".

(** Every place where [sub] occurs in [s]. *)
Fixpoint occurrences (sub s : str) : list nat :=
  (if startswith sub s then [O] else [])
  ++ match s with
     | [] => []
     | _ :: s' => S <$> occurrences sub s'
     end.

(** * Properties *)

(** ** The result monad *)

Lemma bind_Ok {A B} (a : A) (f : A -> result B) : mbind f (Ok a) = f a.
Proof. reflexivity. Qed.

Lemma bind_Raise {A B} (e : exn) (f : A -> result B) :
  mbind f (Raise e) = Raise e.
Proof. reflexivity. Qed.

Ltac bind_step := rewrite ?bind_Ok, ?bind_Raise; cbn [Parser.as_str].

(** ** The matcher against what a pattern can match *)

Section EngineFacts.
Context {U : Unicode}.
Context {A : Type}.
Variable dotall : bool.

Lemma strip_prefix_Some (l s s' : str) :
  Re.strip_prefix l s = Some s' <-> s = l ++ s'.
Proof.
  revert s. induction l as [|a l IH]; intros s; simpl.
  - split; [intros [= ->]; done | intros ->; done].
  - destruct s as [|b s]; [split; [done | intros [=]]|].
    destruct (N.eqb_spec a b) as [->|Hne].
    + rewrite IH. split; [intros ->; done | intros [= ->]; done].
    + split; [done | intros [= ? ?]; done].
Qed.

Lemma rep_lazy_None (p : char -> bool) lo s (k : str -> option A) :
  Re.rep_lazy p lo s k = None <->
  forall w z, s = w ++ z -> Forall (fun c => p c = true) w ->
              (lo <= length w)%nat -> k z = None.
Proof.
  revert lo. induction s as [|c s IH]; intros lo.
  - destruct lo; simpl.
    + destruct (k []) eqn:Hk.
      * split; [done | intros H; rewrite <- Hk; apply (H [] []); auto with lia].
      * split; [|done]. intros _ w z Hs _ _.
        symmetry in Hs. apply app_eq_nil in Hs as [-> ->]. done.
    + split; [|done]. intros _ w z Hs _ Hlo.
      symmetry in Hs. apply app_eq_nil in Hs as [-> ->]. simpl in Hlo. lia.
  - destruct lo; simpl.
    + destruct (k (c :: s)) eqn:Hk.
      * split; [done | intros H; rewrite <- Hk; apply (H [] (c :: s)); auto with lia].
      * destruct (p c) eqn:Hp.
        -- rewrite IH. split.
           ++ intros H w z Hs Hw _. destruct w as [|c' w]; simpl in Hs.
              ** subst z. done.
              ** injection Hs as -> ->. inversion Hw; subst.
                 apply (H w z); auto with lia.
           ++ intros H w z -> Hw _. apply (H (c :: w) z); auto with lia.
        -- split; [|done]. intros _ w z Hs Hw _.
           destruct w as [|c' w]; simpl in Hs.
           ++ subst z. done.
           ++ injection Hs as -> ->. inversion Hw; subst. congruence.
    + destruct (p c) eqn:Hp.
      * rewrite IH. split.
        -- intros H w z Hs Hw Hlo. destruct w as [|c' w]; simpl in *; [lia|].
           injection Hs as -> ->. inversion Hw; subst.
           apply (H w z); auto with lia.
        -- intros H w z -> Hw Hlo. apply (H (c :: w) z); simpl; auto with lia.
      * split; [|done]. intros _ w z Hs Hw Hlo.
        destruct w as [|c' w]; simpl in *; [lia|].
        injection Hs as -> ->. inversion Hw; subst. congruence.
Qed.

Lemma rep_lazy_Some (p : char -> bool) lo s (k : str -> option A) x :
  Re.rep_lazy p lo s k = Some x ->
  exists w z, s = w ++ z /\ Forall (fun c => p c = true) w /\
              (lo <= length w)%nat /\ k z = Some x.
Proof.
  revert lo. induction s as [|c s IH]; intros lo; destruct lo; simpl.
  - destruct (k []) eqn:Hk; [|done]. intros [= ->].
    exists [], []. auto.
  - done.
  - destruct (k (c :: s)) eqn:Hk.
    + intros [= ->]. exists [], (c :: s). auto.
    + destruct (p c) eqn:Hp; [|done]. intros H.
      apply IH in H as (w & z & -> & Hw & _ & Hz).
      exists (c :: w), z. simpl. auto with lia.
  - destruct (p c) eqn:Hp; [|done]. intros H.
    apply IH in H as (w & z & -> & Hw & Hlo & Hz).
    exists (c :: w), z. simpl. auto with lia.
Qed.

Lemma rep_greedy_None (p : char -> bool) lo s (k : str -> option A) :
  Re.rep_greedy p lo s k = None <->
  forall w z, s = w ++ z -> Forall (fun c => p c = true) w ->
              (lo <= length w)%nat -> k z = None.
Proof.
  revert lo. induction s as [|c s IH]; intros lo.
  - simpl. split.
    + intros H w z Hs _ Hlo.
      symmetry in Hs. apply app_eq_nil in Hs as [-> ->].
      destruct lo; [done | simpl in Hlo; lia].
    + intros H. destruct lo; [|done]. apply (H [] []); auto with lia.
  - simpl. destruct (p c) eqn:Hp.
    + destruct (Re.rep_greedy p (pred lo) s k) eqn:E.
      * split; [done|]. intros H. exfalso.
        assert (Re.rep_greedy p (pred lo) s k = None) as E'; [|congruence].
        apply IH. intros w z -> Hw Hlo.
        apply (H (c :: w) z); simpl; auto with lia.
      * rewrite IH in E. split.
        -- intros H w z Hs Hw Hlo. destruct w as [|c' w]; simpl in *.
           ++ subst z. destruct lo; [done | lia].
           ++ injection Hs as -> ->. inversion Hw; subst.
              apply (E w z); auto with lia.
        -- intros H. destruct lo; [|done].
           apply (H [] (c :: s)); auto with lia.
    + split.
      * intros H w z Hs Hw Hlo. destruct w as [|c' w]; simpl in *.
        -- subst z. destruct lo; [done | lia].
        -- injection Hs as -> ->. inversion Hw; subst. congruence.
      * intros H. destruct lo; [|done].
        apply (H [] (c :: s)); auto with lia.
Qed.

Lemma rep_greedy_Some (p : char -> bool) lo s (k : str -> option A) x :
  Re.rep_greedy p lo s k = Some x ->
  exists w z, s = w ++ z /\ Forall (fun c => p c = true) w /\
              (lo <= length w)%nat /\ k z = Some x.
Proof.
  assert (forall lo' s', match lo' with O => k s' | S _ => None end = Some x ->
            exists w z, s' = w ++ z /\ Forall (fun c => p c = true) w /\
              (lo' <= length w)%nat /\ k z = Some x) as Hstop.
  { intros [|lo'] s' H; [|done]. exists [], s'. auto. }
  revert lo. induction s as [|c s IH]; intros lo; simpl.
  - apply Hstop.
  - destruct (p c) eqn:Hp; [|apply Hstop].
    destruct (Re.rep_greedy p (pred lo) s k) eqn:E; [|apply Hstop].
    intros [= ->]. apply IH in E as (w & z & -> & Hw & Hlo & Hz).
    exists (c :: w), z. simpl. auto with lia.
Qed.

(** The matcher fails exactly when the continuation fails on everything
    the pattern can match. *)
Lemma run_None r s g (k : str -> option str -> option A) :
  Re.run dotall r s g k = None <->
  forall s' g', Re.matches dotall r s g s' g' -> k s' g' = None.
Proof.
  revert s g k. induction r as [l|a|a lo gr|r1 IH1 r2 IH2|r1 IH1 r2 IH2|r IH];
    intros s g k; simpl.
  - destruct (Re.strip_prefix l s) as [s1|] eqn:E.
    + apply strip_prefix_Some in E as ->. split.
      * intros H s' g' Hm. inversion Hm; subst.
        match goal with H' : _ ++ _ = _ ++ _ |- _ => apply app_inv_head in H' as -> end.
        done.
      * intros H. apply H. constructor.
    + split; [|done]. intros _ s' g' Hm. inversion Hm; subst.
      assert (Re.strip_prefix l (l ++ s') = Some s') as E'
        by (by apply strip_prefix_Some).
      congruence.
  - destruct s as [|c s].
    + split; [|done]. intros _ s' g' Hm. inversion Hm.
    + destruct (Re.cset_match dotall a c) eqn:Hc.
      * split; [intros H s' g' Hm; inversion Hm; subst; done|].
        intros H. apply H. by constructor.
      * split; [|done]. intros _ s' g' Hm. inversion Hm; subst. congruence.
  - assert ((if gr then Re.rep_greedy else Re.rep_lazy)
              (Re.cset_match dotall a) lo s (fun s' => k s' g) = None <->
            forall w z, s = w ++ z ->
              Forall (fun c => Re.cset_match dotall a c = true) w ->
              (lo <= length w)%nat -> k z g = None) as ->.
    { destruct gr; [apply rep_greedy_None | apply rep_lazy_None]. }
    split.
    + intros H s' g' Hm. inversion Hm; subst. by eapply H.
    + intros H w z -> Hw Hlo. apply H. by constructor.
  - rewrite IH1. split.
    + intros H s' g' Hm. inversion Hm; subst.
      match goal with H1 : Re.matches _ r1 _ _ _ _ |- _ =>
        specialize (H _ _ H1) end.
      rewrite IH2 in H. by apply H.
    + intros H s1 g1 H1. apply IH2. intros s2 g2 H2.
      apply H. by econstructor.
  - destruct (Re.run dotall r1 s g k) eqn:E.
    + split; [done|]. intros H. exfalso.
      assert (Re.run dotall r1 s g k = None) as E'; [|congruence].
      apply IH1. intros s' g' Hm. apply H. by constructor.
    + rewrite IH1 in E. rewrite IH2. split.
      * intros H s' g' Hm. inversion Hm; subst; auto.
      * intros H s' g' Hm. apply H. by apply Re.matches_alt_r.
  - rewrite IH. split.
    + intros H s' g' Hm. inversion Hm; subst. by eapply H.
    + intros H s' g' Hm. apply H. by eapply Re.matches_grp.
Qed.

(** A successful run went through something the pattern can match. *)
Lemma run_Some r s g (k : str -> option str -> option A) x :
  Re.run dotall r s g k = Some x ->
  exists s' g', Re.matches dotall r s g s' g' /\ k s' g' = Some x.
Proof.
  revert s g k. induction r as [l|a|a lo gr|r1 IH1 r2 IH2|r1 IH1 r2 IH2|r IH];
    intros s g k; simpl.
  - destruct (Re.strip_prefix l s) as [s1|] eqn:E; [|done].
    apply strip_prefix_Some in E as ->. intros H.
    exists s1, g. split; [constructor | done].
  - destruct s as [|c s]; [done|].
    destruct (Re.cset_match dotall a c) eqn:Hc; [|done]. intros H.
    exists s, g. split; [by constructor | done].
  - intros H.
    assert (exists w z, s = w ++ z /\
              Forall (fun c => Re.cset_match dotall a c = true) w /\
              (lo <= length w)%nat /\ k z g = Some x)
      as (w & z & -> & Hw & Hlo & Hz).
    { destruct gr; [by apply rep_greedy_Some in H | by apply rep_lazy_Some in H]. }
    exists z, g. split; [by constructor | done].
  - intros H. apply IH1 in H as (s1 & g1 & H1 & H).
    apply IH2 in H as (s2 & g2 & H2 & H).
    exists s2, g2. split; [by econstructor | done].
  - destruct (Re.run dotall r1 s g k) eqn:E.
    + intros [= ->]. apply IH1 in E as (s' & g' & Hm & Hk).
      exists s', g'. split; [by constructor | done].
    + intros H. apply IH2 in H as (s' & g' & Hm & Hk).
      exists s', g'. split; [by apply Re.matches_alt_r | done].
  - intros H. apply IH in H as (s' & g' & Hm & Hk).
    eexists _, _. split; [by eapply Re.matches_grp | done].
Qed.
End EngineFacts.

Section SearchFacts.
Context {U : Unicode}.
Variable dotall : bool.

Lemma rep_lazy_first {A} (p : char -> bool) lo x y (k : str -> option A) v :
  Forall (fun c => p c = true) x ->
  (lo <= length x)%nat ->
  (forall x1 x2, x = x1 ++ x2 -> x2 <> [] -> (lo <= length x1)%nat ->
                 k (x2 ++ y) = None) ->
  k y = Some v ->
  Re.rep_lazy p lo (x ++ y) k = Some v.
Proof.
  intros Hx Hlo Hmin Hy. revert lo Hlo Hmin.
  induction Hx as [|c x Hc Hx IH]; intros lo Hlo Hmin.
  - simpl in *. assert (lo = O) as -> by lia.
    destruct y; simpl; by rewrite Hy.
  - simpl. destruct lo.
    + assert (k (c :: x ++ y) = None) as ->
        by (apply (Hmin [] (c :: x)); [done|done|simpl; lia]).
      rewrite Hc. apply IH; [lia|].
      intros x1 x2 -> Hx2 _. apply (Hmin (c :: x1) x2); [done|done|lia].
    + rewrite Hc. apply IH; [simpl in Hlo; lia|].
      intros x1 x2 -> Hx2 Hl. apply (Hmin (c :: x1) x2); [done|done|simpl; lia].
Qed.

Lemma matches_lit_inv l s g s' g' :
  Re.matches dotall (Lit l) s g s' g' -> s = l ++ s' /\ g' = g.
Proof. by inversion 1. Qed.

Lemma matches_one_inv a s g s' g' :
  Re.matches dotall (One a) s g s' g' ->
  exists c, s = c :: s' /\ Re.cset_match dotall a c = true /\ g' = g.
Proof. inversion 1; subst. eauto. Qed.

Lemma matches_rep_inv a lo greedy s g s' g' :
  Re.matches dotall (Rep a lo greedy) s g s' g' ->
  exists w, s = w ++ s'
            /\ Forall (fun c => Re.cset_match dotall a c = true) w
            /\ (lo <= length w)%nat /\ g' = g.
Proof. inversion 1; subst. eauto. Qed.

Lemma matches_cat_inv r1 r2 s g s' g' :
  Re.matches dotall (Cat r1 r2) s g s' g' ->
  exists s1 g1, Re.matches dotall r1 s g s1 g1
                /\ Re.matches dotall r2 s1 g1 s' g'.
Proof. inversion 1; subst. eauto. Qed.

Lemma matches_alt_inv r1 r2 s g s' g' :
  Re.matches dotall (Alt r1 r2) s g s' g' ->
  Re.matches dotall r1 s g s' g' \/ Re.matches dotall r2 s g s' g'.
Proof. inversion 1; subst; auto. Qed.

Lemma matches_suffix r s g s' g' :
  Re.matches dotall r s g s' g' -> exists w, s = w ++ s'.
Proof.
  induction 1 as [l s g|a c s g|a lo gr w s g|r1 r2 s g s1 g1 s2 g2 _ [w1 ->] _ [w2 ->]
                  | | |r s g s' g' _ IH].
  - by exists l.
  - by exists [c].
  - by exists w.
  - exists (w1 ++ w2). by rewrite <- app_assoc.
  - done.
  - done.
  - done.
Qed.

Lemma matches_group_kept r s g s' g' :
  Re.matches dotall r s g s' g' -> Re.has_group r = false -> g' = g.
Proof.
  induction 1 as [| | |r1 r2 s g s1 g1 s2 g2 _ IH1 _ IH2
                  |r1 r2 s g s' g' _ IH|r1 r2 s g s' g' _ IH|];
    simpl; intros Hg; try done.
  - apply orb_false_iff in Hg as [Hg1 Hg2].
    rewrite (IH2 Hg2). by apply IH1.
  - apply orb_false_iff in Hg as [Hg1 Hg2]. by apply IH.
  - apply orb_false_iff in Hg as [Hg1 Hg2]. by apply IH.
Qed.

Lemma matches_any_group r s g s' g' g0 :
  Re.matches dotall r s g s' g' -> Re.has_group r = false ->
  Re.matches dotall r s g0 s' g0.
Proof.
  intros H. revert g0.
  induction H; simpl; intros g0 Hg; try (by constructor); try done.
  - apply orb_false_iff in Hg as [? ?]. econstructor; eauto.
  - apply orb_false_iff in Hg as [? ?]. apply Re.matches_alt_l; auto.
  - apply orb_false_iff in Hg as [? ?]. apply Re.matches_alt_r; auto.
Qed.

Lemma matches_group_set r s g s' g' :
  Re.matches dotall r s g s' g' ->
  Re.sets_group r = true \/ is_Some g -> is_Some g'.
Proof.
  induction 1; simpl; intros Hg; try (by destruct Hg as [?|?]).
  - apply IHmatches2. destruct Hg as [Hg|Hg]; [|by auto].
    apply orb_true_iff in Hg as [?|?]; auto.
  - apply IHmatches. destruct Hg as [Hg|Hg]; [|by auto].
    apply andb_true_iff in Hg as [? ?]; auto.
  - apply IHmatches. destruct Hg as [Hg|Hg]; [|by auto].
    apply andb_true_iff in Hg as [? ?]; auto.
Qed.

Lemma match_at_None r s :
  Re.match_at dotall false r s = None <-> ~ Re.can_match dotall r s.
Proof.
  unfold Re.match_at, Re.can_match. rewrite run_None. simpl. split.
  - intros H (s' & g' & Hm). by specialize (H _ _ Hm).
  - intros H s' g' Hm. destruct H. eauto.
Qed.

Lemma match_at_Some r s m :
  Re.match_at dotall false r s = Some m ->
  Re.m_re m = r /\
  exists s', Re.matches dotall r s None s' (Re.m_group1 m).
Proof.
  unfold Re.match_at. intros H.
  apply run_Some in H as (s' & g' & Hm & [= <-]). simpl. eauto.
Qed.

Lemma search_None r s :
  Re.search dotall r s = None <->
  forall a b, s = a ++ b -> Re.match_at dotall false r b = None.
Proof.
  induction s as [|c s IH]; simpl.
  - destruct (Re.match_at dotall false r []) eqn:E.
    + split; [done|]. intros H. rewrite <- E. by apply (H []).
    + split; [|done]. intros _ a b Hs.
      symmetry in Hs. by apply app_eq_nil in Hs as [-> ->].
  - destruct (Re.match_at dotall false r (c :: s)) eqn:E.
    + split; [done|]. intros H. rewrite <- E. by apply (H []).
    + rewrite IH. split.
      * intros H [|c' a] b Hs; simpl in Hs; [by subst|].
        injection Hs as -> ->. by apply (H a).
      * intros H a b ->. by apply (H (c :: a)).
Qed.

Lemma search_Some r s m :
  Re.search dotall r s = Some m ->
  exists a b, s = a ++ b /\ Re.match_at dotall false r b = Some m.
Proof.
  induction s as [|c s IH]; simpl.
  - destruct (Re.match_at dotall false r []) eqn:E; [|done].
    intros [= ->]. by exists [], [].
  - destruct (Re.match_at dotall false r (c :: s)) eqn:E.
    + intros [= ->]. by exists [], (c :: s).
    + intros H. apply IH in H as (a & b & -> & H). by exists (c :: a), b.
Qed.

(** The leftmost place where the pattern matches is the one found. *)
Lemma search_first r a b m :
  (forall a1 a2, a = a1 ++ a2 -> a2 <> [] ->
                 Re.match_at dotall false r (a2 ++ b) = None) ->
  Re.match_at dotall false r b = Some m ->
  Re.search dotall r (a ++ b) = Some m.
Proof.
  intros Hskip Hb. induction a as [|c a IH]; simpl.
  - destruct b; simpl; by rewrite Hb.
  - assert (Re.match_at dotall false r (c :: a ++ b) = None) as ->
      by (by apply (Hskip [] (c :: a))).
    apply IH. intros a1 a2 -> Ha2. by apply (Hskip (c :: a1)).
Qed.

(** A field pattern: a literal label, the lazily repeated group, and a
    tail without a group.  The group is the shortest text after which
    the tail can match. *)
Lemma match_at_lazy_field l a lo r x y :
  Re.has_group r = false ->
  Forall (fun c => Re.cset_match dotall a c = true) x ->
  (lo <= length x)%nat ->
  (forall x1 x2, x = x1 ++ x2 -> x2 <> [] -> (lo <= length x1)%nat ->
                 ~ Re.can_match dotall r (x2 ++ y)) ->
  Re.can_match dotall r y ->
  exists m,
    Re.match_at dotall false (Lit l +++ Grp (Rep a lo false) +++ r)
                (l ++ x ++ y) = Some m
    /\ Re.m_group1 m = Some x.
Proof.
  intros Hg Hx Hlo Hmin (s' & g' & Hy).
  unfold Re.match_at. simpl.
  assert (Re.strip_prefix l (l ++ x ++ y) = Some (x ++ y)) as ->
    by (by apply strip_prefix_Some).
  set (K := fun (s'0 : str) (g : option str) =>
              Some {| Re.m_re := Lit l +++ Grp (Rep a lo false) +++ r;
                      Re.m_whole := take (length (l ++ x ++ y) - length s'0)
                                         (l ++ x ++ y);
                      Re.m_group1 := g |}).
  destruct (Re.run dotall r y (Some x) K) as [m|] eqn:E.
  - exists m. split.
    + apply rep_lazy_first; [done|done| |].
      * intros x1 x2 -> Hx2 Hl. apply run_None. intros s1 g1 Hm.
        destruct (Hmin x1 x2 eq_refl Hx2 Hl).
        exists s1, None. eapply matches_any_group; eauto.
      * rewrite length_app.
        replace (length x + length y - length y)%nat with (length x) by lia.
        by rewrite take_app_length.
    + apply run_Some in E as (s1 & g1 & Hm & [= <-]). simpl.
      eapply matches_group_kept; eauto.
  - exfalso. rewrite run_None in E.
    assert (Re.matches dotall r y (Some x) s' (Some x)) as Hm
      by (eapply matches_any_group; eauto).
    by specialize (E _ _ Hm).
Qed.
End SearchFacts.

(** ** string_util.py *)

Import StringUtil Parser.

Section StringUtilFacts.
Context {U : Unicode}.

Lemma skip_length p s : (length (skip p s) <= length s)%nat.
Proof.
  induction s as [|c s IH]; simpl; [lia|].
  destruct (p c); simpl; lia.
Qed.

Lemma skip_drop p s : drop (length s - length (skip p s)) s = skip p s.
Proof.
  induction s as [|c s IH]; simpl; [done|].
  destruct (p c) eqn:Hp.
  - pose proof (skip_length p s).
    replace (S (length s) - length (skip p s))%nat
      with (S (length s - length (skip p s))) by lia.
    done.
  - simpl. by replace (length s - length s)%nat with O by lia.
Qed.

Lemma rep_greedy_skip {A} p lo s (k : str -> option A) v :
  (lo <= length s - length (skip p s))%nat ->
  k (skip p s) = Some v ->
  Re.rep_greedy p lo s k = Some v.
Proof.
  revert lo. induction s as [|c s IH]; intros lo Hlo Hk; simpl in *.
  - assert (lo = O) as -> by lia. done.
  - destruct (p c) eqn:Hp.
    + rewrite IH; [done| |done]. pose proof (skip_length p s). lia.
    + simpl in Hlo. assert (lo = O) as -> by lia. done.
Qed.

Lemma drop_nonword_skip s :
  Spec.drop_nonword (skip (fun c => negb (is_word c)) s) = Spec.drop_nonword s.
Proof.
  induction s as [|c s IH]; simpl; [done|].
  destruct (is_word c) eqn:Hw; simpl; [by rewrite Hw | done].
Qed.

Lemma sub_loop_nonword fuel adv s :
  (length s < fuel)%nat ->
  Re.sub_loop fuel NOFLAGS adv re_nonword_run [] s = Spec.drop_nonword s.
Proof.
  revert adv s. induction fuel as [|fuel IH]; intros adv s Hlt; [lia|].
  cbn [Re.sub_loop]. unfold Re.match_at, re_nonword_run, greedy_plus.
  cbn [Re.run]. destruct s as [|c s]; [done|].
  destruct (is_word c) eqn:Hw.
  - cbn [Re.rep_greedy Re.cset_match]. rewrite Hw. cbn [negb].
    cbn [Spec.drop_nonword]. rewrite Hw. f_equal.
    change (Rep CNonWord 1 true) with re_nonword_run.
    apply IH. simpl in Hlt. lia.
  - set (p := Re.cset_match NOFLAGS CNonWord).
    assert (length (skip p (c :: s)) < length (c :: s))%nat as Hsk.
    { simpl. unfold p at 1. simpl. rewrite Hw. simpl.
      pose proof (skip_length p s). lia. }
    assert ((length (skip p (c :: s)) =? length (c :: s))%nat = false) as Hne
      by (apply Nat.eqb_neq; lia).
    erewrite rep_greedy_skip; cycle 1.
    { lia. }
    { cbv beta. rewrite Hne, andb_false_r. reflexivity. }
    cbn [Re.m_whole app].
    rewrite length_take, Nat.min_l by lia. rewrite skip_drop.
    change (Rep CNonWord 1 true) with re_nonword_run.
    rewrite IH by lia. apply drop_nonword_skip.
Qed.

(** [re.sub(r'\W+', '', s)] removes the non-word characters of [s]. *)
Lemma sub_nonword s : Re.sub re_nonword_run [] s = Spec.drop_nonword s.
Proof. unfold Re.sub. apply sub_loop_nonword. lia. Qed.

Lemma almost_equal_present s1 s2 :
  almost_equal (Some s1) (Some s2) = true <->
  Spec.normalize s1 = Spec.normalize s2.
Proof.
  unfold almost_equal, Spec.normalize. rewrite !sub_nonword.
  apply bool_decide_eq_true.
Qed.

Lemma almost_equal_sym a b : almost_equal a b = almost_equal b a.
Proof.
  destruct a as [s1|], b as [s2|]; try done.
  unfold almost_equal. apply bool_decide_ext. split; congruence.
Qed.

Lemma almost_equal_refl a : almost_equal a a = true.
Proof.
  destruct a as [s|]; [|done]. by apply almost_equal_present.
Qed.

(** C9: [almost_equal] is reflexive and symmetric; two absent values are
    equal, an absent and a present one are not; two present strings are
    equal exactly when they are the same after trimming, case folding
    and the removal of every non-word character; and "OSS-Fuzz" equals
    " oss fuzz ". *)
Theorem almost_equal_spec :
  (forall a, almost_equal a a = true)
  /\ (forall a b, almost_equal a b = almost_equal b a)
  /\ almost_equal None None = true
  /\ (forall s, almost_equal None (Some s) = false
                /\ almost_equal (Some s) None = false)
  /\ (forall s1 s2, almost_equal (Some s1) (Some s2) = true <->
                    Spec.normalize s1 = Spec.normalize s2)
  /\ almost_equal (Some (lit "OSS-Fuzz")) (Some (lit " oss fuzz ")) = true.
Proof.
  split; [apply almost_equal_refl|].
  split; [apply almost_equal_sym|].
  split; [done|]. split; [done|].
  split; [apply almost_equal_present|].
  apply almost_equal_present. reflexivity.
Qed.
End StringUtilFacts.

(** ** The classifier *)

Section ClassifierFacts.
Context {U : Unicode}.

(** C2: a record whose project matches "oss-fuzz" and whose metadata has
    no "Type" key makes the classifier raise, whoever its author is. *)
Theorem classifier_missing_type (issue : Issue) :
  almost_equal (Some (lit "oss-fuzz")) (Some (issue_project issue)) = true ->
  issue_metadata issue !! lit "Type" = None ->
  is_oss_fuzz_bug_report issue
  = Raise (ScrapeException (lit "Missing Type metadata")).
Proof.
  intros Hp Ht. unfold is_oss_fuzz_bug_report. by rewrite Hp, Ht.
Qed.

(** C3 as amended: the classifier returns false, and does not raise,
    when the project does not match, and when the author does not match
    and the metadata has a "Type" key. *)
Theorem classifier_out_of_scope (issue : Issue) :
  almost_equal (Some (lit "oss-fuzz")) (Some (issue_project issue)) = false
  \/ (almost_equal (Some (lit "ClusterFuzz-External"))
                   (Some (issue_author issue)) = false
      /\ is_Some (issue_metadata issue !! lit "Type")) ->
  is_oss_fuzz_bug_report issue = Ok false.
Proof.
  unfold is_oss_fuzz_bug_report. intros [Hp|[Ha [t Ht]]].
  - by rewrite Hp.
  - rewrite Ha, Ht. simpl. by rewrite !andb_false_r.
Qed.
End ClassifierFacts.

Lemma classifier_missing_type_witness :
  @is_oss_fuzz_bug_report ascii_only (issue_no_type "a maintainer")
  = Raise (ScrapeException (lit "Missing Type metadata")).
Proof.
  apply (@classifier_missing_type ascii_only (issue_no_type "a maintainer")).
  - vm_compute. reflexivity.
  - reflexivity.
Defined.

(** The author does not match, the project does and there is no "Type"
    key: the classifier raises instead of returning false. *)
Lemma classifier_out_of_scope_counterexample :
  ~ (forall (U : Unicode) (issue : Issue),
        almost_equal (Some (lit "oss-fuzz")) (Some (issue_project issue)) = false
        \/ almost_equal (Some (lit "ClusterFuzz-External"))
                        (Some (issue_author issue)) = false ->
        is_oss_fuzz_bug_report issue = Ok false).
Proof.
  intros H.
  specialize (H ascii_only (issue_no_type "a maintainer")).
  assert (@is_oss_fuzz_bug_report ascii_only (issue_no_type "a maintainer")
          = Raise (ScrapeException (lit "Missing Type metadata"))) as E
    by (vm_compute; reflexivity).
  rewrite E in H. discriminate H. right. vm_compute. reflexivity.
Qed.

Lemma classifier_out_of_scope_witness :
  @is_oss_fuzz_bug_report ascii_only issue_chromium = Ok false.
Proof.
  apply (@classifier_out_of_scope ascii_only issue_chromium).
  left. vm_compute. reflexivity.
Defined.

(** ** The extraction rules never return a missing text field *)

Section DefinedFacts.
Context {U : Unicode}.

Lemma sets_group_has_group r : Re.sets_group r = true -> Re.has_group r = true.
Proof.
  induction r; simpl; try done.
  - intros [?|?]%orb_true_iff; apply orb_true_iff; auto.
  - intros [? ?]%andb_true_iff. apply orb_true_iff; auto.
Qed.

(** A capture of group 1 returns [None] only for a gentle failure. *)
Lemma capture_defined d r fl gently v :
  Re.sets_group r = true ->
  capture d r fl 1 gently = Ok v ->
  is_Some v \/ (v = None /\ gently = true
                /\ Re.search fl r d = None).
Proof.
  intros Hr. unfold capture. destruct (Re.search fl r d) as [m|] eqn:E.
  - apply search_Some in E as (a & b & _ & E).
    apply match_at_Some in E as [Hre [s' Hm]].
    unfold Re.group. rewrite Hre, (sets_group_has_group _ Hr).
    intros [= <-]. left. eapply matches_group_set; eauto.
  - destruct gently; [|done]. intros [= <-]. auto.
Qed.

Lemma capture_strict_defined d r fl v :
  Re.sets_group r = true ->
  capture d r fl 1 false = Ok v -> is_Some v.
Proof.
  intros Hr H. by apply capture_defined in H as [?|(_ & [=] & _)].
Qed.

Lemma _get_project_defined d id v :
  _get_project d id = Ok v -> is_Some v.
Proof.
  unfold _get_project, _get_jobtype.
  destruct (id <=? 135)%Z.
  - destruct (capture d re_job_type NOFLAGS 1 false) as [[jt|]|e]; [|done|done].
    bind_step. rewrite bind_Ok.
    destruct (item_last _); [|done]. by intros [= <-].
  - destruct (_ && _); by apply capture_strict_defined.
Qed.

Lemma _get_fuzzing_engine_defined d id v :
  _get_fuzzing_engine d id = Ok v -> is_Some v.
Proof.
  unfold _get_fuzzing_engine, _get_jobtype.
  destruct (contains _ d); [by intros [= <-]|].
  destruct (Z.leb_spec id 16307).
  - destruct (capture d re_job_type NOFLAGS 1 false) as [[jt|]|e]; [|done|done].
    bind_step. rewrite bind_Ok.
    repeat (destruct (startswith _ jt); [by intros [= <-]|]).
    destruct (item _ _); [|done]. by intros [= <-].
  - destruct (Z.geb_spec id 16308); [|lia].
    by apply capture_strict_defined.
Qed.

Lemma _get_fuzz_target_binary_defined d id v :
  _get_fuzz_target_binary d id = Ok v -> is_Some v.
Proof.
  unfold _get_fuzz_target_binary.
  destruct (capture d re_fuzz_target NOFLAGS 1 true) as [[x|]|e];
    [by intros [= <-]| |done].
  destruct (capture d re_fuzz_target_binary NOFLAGS 1 true) as [[x|]|e];
    [by intros [= <-]| |done].
  destruct (capture d re_fuzzer_binary NOFLAGS 1 true) as [[x|]|e];
    [by intros [= <-]| |done].
  destruct (capture d re_fuzzer NOFLAGS 1 false) as [[x|]|e]; [|done|done].
  bind_step. unfold in_list. destruct (bool_decide _); [by intros [= <-]|].
  rewrite bind_Ok.
  destruct (_ <=? _)%nat; [by intros [= <-]|].
  destruct (item _ _); [|done]. by intros [= <-].
Qed.

Lemma _get_platform_id_defined d v :
  _get_platform_id d = Ok v -> is_Some v.
Proof.
  unfold _get_platform_id.
  destruct (capture d re_platform_id NOFLAGS 1 true) as [[x|]|e];
    [by intros [= <-]|by intros [= <-]|done].
Qed.

Lemma _get_sanitizer_defined d id v :
  _get_sanitizer d id = Ok v -> is_Some v.
Proof.
  unfold _get_sanitizer.
  destruct (Z.leb_spec id 383).
  - destruct (capture d re_job_type NOFLAGS 1 false) as [[jt|]|e]; [|done|done].
    by intros [= <-].
  - destruct (Z.geb_spec id 384); [|lia].
    by apply capture_strict_defined.
Qed.

Lemma _get_testcase_url_defined d v :
  _get_testcase_url d = Ok v -> is_Some v.
Proof.
  unfold _get_testcase_url.
  destruct (capture d re_reproducer_testcase NOFLAGS 1 true) as [[x|]|e];
    [by intros [= <-]| |done].
  destruct (capture d re_minimized_testcase NOFLAGS 1 true) as [[x|]|e];
    [by intros [= <-]| |done].
  destruct (capture d re_unminimized_testcase NOFLAGS 1 true) as [[x|]|e];
    [by intros [= <-]| |done].
  by apply capture_strict_defined.
Qed.

(** The report is built from the twelve rules, all of which returned. *)
Lemma parse_Ok issue report :
  parse_oss_fuzz_bug_report_details issue = Ok report ->
  Spec.rules_return issue report.
Proof.
  unfold parse_oss_fuzz_bug_report_details, Spec.rules_return.
  cbv zeta.
  set (d := issue_description issue). set (id := issue_id issue).
  destruct (_get_project d id); [|done].
  destruct (_get_fuzzing_engine d id); [|done].
  destruct (_get_fuzz_target_binary d id); [|done].
  destruct (_get_job_type d); [|done].
  destruct (_get_platform_id d); [|done].
  destruct (_get_crash_type d); [|done].
  destruct (_get_crash_address d); [|done].
  destruct (_get_crash_state d); [|done].
  destruct (_get_sanitizer d id); [|done].
  destruct (_get_regressed_commits_url d); [|done].
  destruct (_get_fixed_commits_url (issue_comments issue) id); [|done].
  destruct (_get_testcase_url d); [|done].
  intros [= <-]. simpl. repeat split.
Qed.

(** A failure of the parse is the failure of one of the rules. *)
Lemma parse_Raise issue e :
  parse_oss_fuzz_bug_report_details issue = Raise e ->
  Spec.rule_raises issue e.
Proof.
  unfold parse_oss_fuzz_bug_report_details, Spec.rule_raises.
  cbv zeta.
  set (d := issue_description issue). set (id := issue_id issue).
  destruct (_get_project d id); [|intros [= <-]; tauto].
  destruct (_get_fuzzing_engine d id); [|intros [= <-]; tauto].
  destruct (_get_fuzz_target_binary d id); [|intros [= <-]; tauto].
  destruct (_get_job_type d); [|intros [= <-]; tauto].
  destruct (_get_platform_id d); [|intros [= <-]; tauto].
  destruct (_get_crash_type d); [|intros [= <-]; tauto].
  destruct (_get_crash_address d); [|intros [= <-]; tauto].
  destruct (_get_crash_state d); [|intros [= <-]; tauto].
  destruct (_get_sanitizer d id); [|intros [= <-]; tauto].
  destruct (_get_regressed_commits_url d); [|intros [= <-]; tauto].
  destruct (_get_fixed_commits_url (issue_comments issue) id);
    [|intros [= <-]; tauto].
  destruct (_get_testcase_url d); [|intros [= <-]; tauto].
  done.
Qed.

(** Conversely, the parse fails as soon as one rule does. *)
Lemma parse_Raise_any issue e :
  Spec.rule_raises issue e ->
  exists e', parse_oss_fuzz_bug_report_details issue = Raise e'.
Proof.
  unfold parse_oss_fuzz_bug_report_details, Spec.rule_raises.
  cbv zeta.
  set (d := issue_description issue). set (id := issue_id issue).
  intros H.
  destruct (_get_project d id); [|eauto].
  destruct (_get_fuzzing_engine d id); [|eauto].
  destruct (_get_fuzz_target_binary d id); [|eauto].
  destruct (_get_job_type d); [|eauto].
  destruct (_get_platform_id d); [|eauto].
  destruct (_get_crash_type d); [|eauto].
  destruct (_get_crash_address d); [|eauto].
  destruct (_get_crash_state d); [|eauto].
  destruct (_get_sanitizer d id); [|eauto].
  destruct (_get_regressed_commits_url d); [|eauto].
  destruct (_get_fixed_commits_url (issue_comments issue) id); [|eauto].
  destruct (_get_testcase_url d); [|eauto].
  exfalso. repeat (destruct H as [H|H]; [done|]). done.
Qed.

Lemma parse_fully_defined issue report :
  parse_oss_fuzz_bug_report_details issue = Ok report ->
  Spec.fully_defined report.
Proof.
  intros H. apply parse_Ok in H. unfold Spec.rules_return in H.
  destruct H as (H1 & H2 & H3 & H4 & H5 & H6 & H7 & _ & H9 & _ & _ & H12).
  unfold Spec.fully_defined.
  apply _get_project_defined in H1.
  apply _get_fuzzing_engine_defined in H2.
  apply _get_fuzz_target_binary_defined in H3.
  apply capture_strict_defined in H4; [|done].
  apply _get_platform_id_defined in H5.
  apply capture_strict_defined in H6; [|done].
  apply capture_strict_defined in H7; [|done].
  apply _get_sanitizer_defined in H9.
  apply _get_testcase_url_defined in H12.
  done.
Qed.

(** C1: the three outcomes of [attach_oss_fuzz_bug_report].  (a) The
    classifier returns false: false, the record as it was.  (b) The
    classifier returns true and all twelve rules return: true, and the
    record holds the one report built from the twelve values, none of
    its text fields missing.  (c) The classifier raises, or it returns
    true and one of the rules raises: the same exception, the record as
    it was.  A rule that raises always leads to (c). *)
Theorem attach_all_or_nothing (issue : Issue) :
  ((is_oss_fuzz_bug_report issue = Ok false
    /\ attach_oss_fuzz_bug_report issue = (Ok false, issue))
   \/ (exists report,
         is_oss_fuzz_bug_report issue = Ok true
         /\ Spec.rules_return issue report
         /\ attach_oss_fuzz_bug_report issue
            = (Ok true, set_oss_fuzz_bug_report issue report)
         /\ oss_fuzz_bug_report (set_oss_fuzz_bug_report issue report)
            = Some report
         /\ Spec.fully_defined report)
   \/ (exists e,
         (is_oss_fuzz_bug_report issue = Raise e
          \/ (is_oss_fuzz_bug_report issue = Ok true
              /\ Spec.rule_raises issue e))
         /\ attach_oss_fuzz_bug_report issue = (Raise e, issue)))
  /\ (forall e, is_oss_fuzz_bug_report issue = Ok true ->
                Spec.rule_raises issue e ->
                exists e', attach_oss_fuzz_bug_report issue = (Raise e', issue)).
Proof.
  unfold attach_oss_fuzz_bug_report. split.
  - destruct (is_oss_fuzz_bug_report issue) as [[|]|e] eqn:Hc.
    + destruct (parse_oss_fuzz_bug_report_details issue) as [report|e] eqn:Hp.
      * right; left. exists report.
        split; [done|]. split; [by apply parse_Ok|].
        split; [done|]. split; [done|]. by eapply parse_fully_defined.
      * right; right. exists e. split; [|done].
        right. split; [done|]. by apply parse_Raise.
    + left. done.
    + right; right. exists e. auto.
  - intros e -> [e' ->]%parse_Raise_any. by exists e'.
Qed.

(** End to end: a record of the project, by the reporting account, of type
    "Bug", whose description holds every marker of its era, gets the full
    report. *)
Lemma attach_full_report :
  attach_oss_fuzz_bug_report (issue_in_scope text_full_report)
  = (Ok true,
     set_oss_fuzz_bug_report (issue_in_scope text_full_report) report_full).
Proof.
  assert (is_oss_fuzz_bug_report (issue_in_scope text_full_report) = Ok true)
    as Hc by (vm_compute; reflexivity).
  assert (parse_oss_fuzz_bug_report_details (issue_in_scope text_full_report)
          = Ok report_full) as Hp by (vm_compute; reflexivity).
  unfold attach_oss_fuzz_bug_report. by rewrite Hc, Hp.
Qed.

(** A record of another project gets nothing, and nothing is raised. *)
Lemma attach_other_project :
  attach_oss_fuzz_bug_report issue_chromium = (Ok false, issue_chromium).
Proof.
  assert (is_oss_fuzz_bug_report issue_chromium = Ok false) as Hc
    by (vm_compute; reflexivity).
  unfold attach_oss_fuzz_bug_report. by rewrite Hc.
Qed.
End DefinedFacts.

Lemma attach_all_or_nothing_witness :
  exists e',
    @attach_oss_fuzz_bug_report ascii_only (issue_in_scope (lit ""))
    = (Raise e', issue_in_scope (lit "")).
Proof.
  destruct (@attach_all_or_nothing ascii_only (issue_in_scope (lit "")))
    as [_ H].
  apply (H (Warning re_project (lit "") 1)).
  - vm_compute. reflexivity.
  - left. vm_compute. reflexivity.
Defined.

(** ** Tokens of a job type *)

Section TokenFacts.
Lemma split_nonempty sep s : split sep s <> [].
Proof.
  destruct s as [|c s]; simpl; [done|].
  destruct (c =? sep); [done|]. by destruct (split sep s).
Qed.

Lemma split_head sep s : exists t, split sep s = Spec.before sep s :: t.
Proof.
  induction s as [|c s [t IH]]; simpl; [by exists []|].
  destruct (c =? sep); [by eexists|]. rewrite IH. by eexists.
Qed.

(** [s.split('_')[0]] is the first token. *)
Lemma item_split_first s :
  item (split (chr "_") s) 0 = Ok (Spec.first_token s).
Proof.
  unfold item, Spec.first_token.
  destruct (split_head (chr "_") s) as [t ->]. done.
Qed.

Lemma before_no_sep (sep : char) (x : str) : sep ∉ x -> Spec.before sep x = x.
Proof.
  induction x as [|a x IH]; simpl; [done|].
  intros [Hne Hin]%not_elem_of_cons.
  destruct (N.eqb_spec a sep) as [->|_]; [done|]. f_equal. by apply IH.
Qed.

Lemma before_app_sep (sep : char) (x y : str) :
  sep ∉ x -> Spec.before sep (x ++ sep :: y) = x.
Proof.
  induction x as [|a x IH]; simpl.
  - by rewrite N.eqb_refl.
  - intros [Hne Hin]%not_elem_of_cons.
    destruct (N.eqb_spec a sep) as [->|_]; [done|]. f_equal. by apply IH.
Qed.

Lemma split_no_sep (sep : char) (s : str) : sep ∉ s -> split sep s = [s].
Proof.
  induction s as [|c s IH]; simpl; [done|].
  intros [Hne Hin]%not_elem_of_cons.
  destruct (N.eqb_spec c sep) as [->|_]; [done|]. by rewrite IH.
Qed.

Lemma split_app_sep sep a b :
  split sep (a ++ sep :: b) = split sep a ++ split sep b.
Proof.
  induction a as [|c a IH]; simpl.
  - by rewrite N.eqb_refl.
  - destruct (c =? sep); [by rewrite IH|]. rewrite IH.
    pose proof (split_nonempty sep a). by destruct (split sep a).
Qed.

(** A text has no separator, or a last one. *)
Lemma last_sep (sep : char) (s : str) :
  sep ∉ s \/ exists a b, s = a ++ sep :: b /\ sep ∉ b.
Proof.
  induction s as [|c s [IH|(a & b & -> & Hb)]].
  - left. apply not_elem_of_nil.
  - destruct (decide (c = sep)) as [->|Hne].
    + right. by exists [], s.
    + left. by apply not_elem_of_cons.
  - right. by exists (c :: a), b.
Qed.

Lemma last_split sep s :
  last (split sep s) = Some (reverse (Spec.before sep (reverse s))).
Proof.
  destruct (last_sep sep s) as [Hs|(a & b & -> & Hb)].
  - rewrite split_no_sep by done.
    rewrite before_no_sep by (by rewrite elem_of_reverse).
    by rewrite reverse_involutive.
  - rewrite split_app_sep, (split_no_sep sep b) by done.
    rewrite last_snoc, reverse_app, reverse_cons, <- app_assoc. simpl.
    rewrite before_app_sep by (by rewrite elem_of_reverse).
    by rewrite reverse_involutive.
Qed.

(** [s.split('_')[-1]] is the last token. *)
Lemma item_last_split s :
  item_last (split (chr "_") s) = Ok (Spec.last_token s).
Proof. unfold item_last, Spec.last_token. by rewrite last_split. Qed.

Lemma startswith_spec p s :
  startswith p s = true <-> exists b, s = p ++ b.
Proof.
  revert s. induction p as [|a p IH]; intros s; simpl.
  - split; [by exists s | done].
  - destruct s as [|c s]; [split; [done | by intros [b [=]]]|].
    rewrite andb_true_iff, IH, N.eqb_eq. split.
    + intros [-> [b ->]]. by exists b.
    + intros [b [= -> ->]]. eauto.
Qed.

(** [sub in s] holds exactly when [sub] occurs in [s]. *)
Lemma contains_spec sub s :
  contains sub s = true <-> exists a b, s = a ++ sub ++ b.
Proof.
  induction s as [|c s IH]; simpl.
  - rewrite orb_false_r, startswith_spec. split.
    + intros [b ->]. by exists [], b.
    + intros (a & b & H). symmetry in H.
      apply app_eq_nil in H as [-> H]. by exists b.
  - rewrite orb_true_iff, startswith_spec, IH. split.
    + intros [[b ->]|(a & b & ->)]; [by exists [], b | by exists (c :: a), b].
    + intros ([|c' a] & b & H); simpl in H; [left; by exists b|].
      injection H as -> ->. right. eauto.
Qed.
End TokenFacts.

(** ** The single-line rules *)

Section LineRules.
Context {U : Unicode}.

(** A field pattern that ends in [[\n$]] finds nothing in a text that
    holds neither a line feed nor a dollar sign, however the field is
    spelled: the end of the text does not end the field. *)
Lemma capture_needs_terminator d l lo :
  (forall c, c ∈ d -> c <> LF /\ c <> chr "$") ->
  capture d (Lit l +++ Grp (Rep CDot lo false) +++ One nl_or_dollar)
          NOFLAGS 1 false
  = Raise (Warning (Lit l +++ Grp (Rep CDot lo false) +++ One nl_or_dollar)
                   d 1).
Proof.
  intros Hd. unfold capture.
  destruct (Re.search NOFLAGS _ d) as [m|] eqn:E; [exfalso|done].
  apply search_Some in E as (a & b & -> & E).
  apply match_at_Some in E as [_ [s' Hm]].
  inversion Hm as [| | |? ? ? ? s1 g1 ? ? H1 H2| | |]; subst.
  inversion H2 as [| | |? ? ? ? s2 g2 ? ? H3 H4| | |]; subst.
  inversion H4 as [|? c ? ? Hc| | | | |]; subst.
  apply matches_suffix in H1 as [w1 ->].
  apply matches_suffix in H3 as [w2 ->].
  destruct (Hd c) as [Hlf Hdollar].
  { rewrite !elem_of_app. right. right. right. apply elem_of_cons. by left. }
  cbn in Hc. apply orb_true_iff in Hc as [Hc|Hc]; apply N.eqb_eq in Hc; done.
Qed.

(** C4, on the code: the job type is captured when its line ends in a
    line feed, and the same line as the last thing of the text, without
    a line feed, makes the rule raise; a dollar sign in the value ends the
    capture as a line feed does. *)
Theorem job_type_last_line :
  _get_job_type text_job_ended = Ok (Some (lit "libfuzzer_asan_alpha"))
  /\ _get_job_type text_job_open = Raise (Warning re_job_type text_job_open 1)
  /\ _get_job_type text_job_dollar = Ok (Some (lit "libfuzzer")).
Proof. repeat split; vm_compute; reflexivity. Qed.

(** C5 as amended: the project rule by id.  Up to 135 it is the last
    token of the trimmed job type; from 136 to 212 the strict capture of
    the target; above 212 the strict capture of the project.  On a text
    with a job type and a different target, 135 gives the one and 136
    the other. *)
Theorem project_rule :
  (forall d id,
      ((id <= 135)%Z ->
       (forall jt, capture d re_job_type NOFLAGS 1 false = Ok (Some jt) ->
                   _get_project d id = Ok (Some (Spec.last_token (strip jt))))
       /\ (forall e, capture d re_job_type NOFLAGS 1 false = Raise e ->
                     _get_project d id = Raise e))
      /\ ((135 < id <= 212)%Z ->
          _get_project d id = capture d re_target NOFLAGS 1 false)
      /\ ((212 < id)%Z ->
          _get_project d id = capture d re_project NOFLAGS 1 false))
  /\ _get_project text_job_and_target 135 = Ok (Some (lit "alpha"))
  /\ _get_project text_job_and_target 136 = Ok (Some (lit "beta")).
Proof.
  split; [|split; vm_compute; reflexivity].
  intros d id. unfold _get_project, _get_jobtype. repeat split.
  - intros jt Hjt. destruct (Z.leb_spec id 135); [|lia].
    rewrite Hjt. bind_step. rewrite bind_Ok, item_last_split. done.
  - intros e He. destruct (Z.leb_spec id 135); [|lia]. by rewrite He.
  - destruct (Z.leb_spec id 135); [lia|].
    destruct (Z.leb_spec 135 id); [|lia].
    destruct (Z.leb_spec id 212); [|lia]. done.
  - destruct (Z.leb_spec id 135); [lia|].
    destruct (Z.leb_spec 135 id); [|lia].
    destruct (Z.leb_spec id 212); [lia|]. done.
Qed.

(** C6: the fuzzing engine rule.  A text that holds "Fuzzer: js_fuzzer"
    gives "js_fuzzer" for every id.  Otherwise an id up to 16307 gives
    the engine named by the job type and an id from 16308 the strict
    capture of the fuzzing engine line; on a text with both lines, 16307
    and 16308 give the two different values. *)
Theorem fuzzing_engine_rule :
  (forall d id,
      (exists a b, d = a ++ lit "Fuzzer: js_fuzzer" ++ b) ->
      _get_fuzzing_engine d id = Ok (Some (lit "js_fuzzer")))
  /\ (forall d id,
        ~ (exists a b, d = a ++ lit "Fuzzer: js_fuzzer" ++ b) ->
        ((id <= 16307)%Z ->
         forall jt, capture d re_job_type NOFLAGS 1 false = Ok (Some jt) ->
                    _get_fuzzing_engine d id
                    = Ok (Some (Spec.engine_of_job_type jt)))
        /\ ((16308 <= id)%Z ->
            _get_fuzzing_engine d id
            = capture d re_fuzzing_engine NOFLAGS 1 false))
  /\ _get_fuzzing_engine text_job_and_engine 16307 = Ok (Some (lit "libFuzzer"))
  /\ _get_fuzzing_engine text_job_and_engine 16308 = Ok (Some (lit "afl")).
Proof.
  split; [|split; [|split; vm_compute; reflexivity]].
  - intros d id Hin. apply contains_spec in Hin.
    unfold _get_fuzzing_engine. by rewrite Hin.
  - intros d id Hin. rewrite <- contains_spec in Hin.
    apply not_true_is_false in Hin.
    unfold _get_fuzzing_engine, _get_jobtype. rewrite Hin. split.
    + intros Hid jt Hjt. destruct (Z.leb_spec id 16307); [|lia].
      rewrite Hjt. bind_step. rewrite bind_Ok.
      unfold Spec.engine_of_job_type.
      repeat (destruct (startswith _ jt); [done|]).
      by rewrite item_split_first.
    + intros Hid. destruct (Z.leb_spec id 16307); [lia|].
      destruct (Z.geb_spec id 16308); [done|lia].
Qed.
End LineRules.

Lemma project_rule_witness :
  @_get_project ascii_only text_job_padded 135 = Ok (Some (lit "alpha"))
  /\ @_get_project ascii_only text_job_and_target 200 = Ok (Some (lit "beta")).
Proof.
  destruct (@project_rule ascii_only) as [H _]. split.
  - destruct (H text_job_padded 135%Z) as [Hlow _].
    destruct Hlow as [Hjt _]; [lia|].
    rewrite (Hjt (lit "libfuzzer_asan_alpha ")); vm_compute; reflexivity.
  - destruct (H text_job_and_target 200%Z) as (_ & Hmid & _).
    rewrite Hmid; [|lia]. vm_compute. reflexivity.
Defined.

(** The job type is trimmed before it is split: with a space before the
    line feed the rule returns "alpha", and the last token of the job type
    as captured is "alpha ". *)
Lemma project_rule_counterexample :
  ~ (forall (U : Unicode) d id jt,
        (id <= 135)%Z ->
        capture d re_job_type NOFLAGS 1 false = Ok (Some jt) ->
        _get_project d id = Ok (Some (Spec.last_token jt))).
Proof.
  intros H.
  specialize (H ascii_only text_job_padded 135%Z (lit "libfuzzer_asan_alpha ")).
  assert (@_get_project ascii_only text_job_padded 135
          = Ok (Some (lit "alpha"))) as E by (vm_compute; reflexivity).
  rewrite E in H.
  assert (Spec.last_token (lit "libfuzzer_asan_alpha ") = lit "alpha ") as E'
    by (vm_compute; reflexivity).
  rewrite E' in H.
  assert (Ok (Some (lit "alpha")) = Ok (Some (lit "alpha "))) as E''.
  { apply H; [lia|]. vm_compute. reflexivity. }
  vm_compute in E''. discriminate E''.
Qed.

Lemma fuzzing_engine_rule_witness :
  @_get_fuzzing_engine ascii_only text_js_fuzzer 16308 = Ok (Some (lit "js_fuzzer"))
  /\ @_get_fuzzing_engine ascii_only text_job_and_engine 16307
     = Ok (Some (lit "libFuzzer")).
Proof.
  destruct (@fuzzing_engine_rule ascii_only) as (Hjs & Hid & _). split.
  - apply Hjs. exists (lit "Job Type: libfuzzer_asan_alpha\n"), (lit "\n").
    vm_compute. reflexivity.
  - destruct (Hid text_job_and_engine 16307%Z) as [Hlow _].
    + rewrite <- contains_spec. vm_compute. discriminate.
    + rewrite (Hlow ltac:(lia) (lit "libfuzzer_asan_alpha"));
        vm_compute; reflexivity.
Defined.

(** ** The crash state rule *)

Section CrashState.
Context {U : Unicode}.

Lemma matches_block_end s g s' g' :
  Re.matches DOTALL Spec.re_block_end s g s' g' ->
  exists y, s = LF :: y /\ Spec.block_end y.
Proof.
  intros Hm.
  inversion Hm as [| | |? ? ? ? s1 g1 ? ? H1 H2| | |]; subst.
  inversion H1 as [|? c ? ? Hc| | | | |]; subst.
  cbn in Hc. apply N.eqb_eq in Hc as ->.
  exists s1. split; [done|].
  inversion H2 as [| | | |? ? ? ? ? ? H3|? ? ? ? ? ? H3|]; subst.
  - inversion H3; subst. left. by eexists.
  - inversion H3 as [| | |? ? ? ? s2 g2 ? ? H4 H5| | |]; subst.
    inversion H4 as [| |? ? ? w ? ? Hw _| | | |]; subst.
    inversion H5 as [|? c ? ? Hc| | | | |]; subst.
    cbn in Hc. apply N.eqb_eq in Hc as ->.
    right. by exists w, s'.
Qed.



(** What lies after a longer prefix is the end of what lies after a
    shorter one. *)
Lemma app_eq_suffix {A} (l1 r1 l2 r2 : list A) :
  l1 ++ r1 = l2 ++ r2 -> (length l1 <= length l2)%nat ->
  exists m, r1 = m ++ r2 /\ l2 = l1 ++ m.
Proof.
  intros H Hlen. exists (take (length l2 - length l1) r1).
  assert (l2 = l1 ++ take (length l2 - length l1) r1) as Hl2.
  { rewrite <- (take_app_length l2 r2) at 1. rewrite <- H.
    rewrite take_app. by rewrite take_ge by lia. }
  split; [|done].
  rewrite Hl2 in H at 1. rewrite <- app_assoc in H.
  by apply app_inv_head in H.
Qed.

(** The loop of the rule keeps the trimmed lines that are not empty, in
    order. *)
Lemma crash_state_loop_spec lines acc :
  crash_state_loop lines acc
  = acc ++ List.filter (fun l => negb (bool_decide (l = [])))
                       (map strip lines).
Proof.
  revert acc. induction lines as [|line lines IH]; intros acc; simpl.
  - by rewrite app_nil_r.
  - destruct (strip line) as [|c l] eqn:E; simpl.
    + apply IH.
    + rewrite IH, <- app_assoc. done.
Qed.






(** C10: when nothing after the first "Crash State:" line ends the
    block, neither the word Sanitizer nor a blank line after a line
    feed, the rule raises: the end of the text does not end the block. *)
Theorem crash_state_unterminated d pre rest :
  d = pre ++ lit "Crash State:\n" ++ rest ->
  (forall a b, d = a ++ lit "Crash State:\n" ++ b ->
               (length pre <= length a)%nat) ->
  (forall b1 b2, rest = b1 ++ LF :: b2 -> ~ Spec.block_end b2) ->
  _get_crash_state d = Raise (Warning re_crash_state d 1).
Proof.
  intros Hd Hfirst Hopen. unfold _get_crash_state, capture.
  destruct (Re.search DOTALL re_crash_state d) as [m|] eqn:E; [exfalso|done].
  apply search_Some in E as (a & b & Hab & E).
  apply match_at_Some in E as [_ [s' Hm]].
  unfold re_crash_state in Hm.
  apply matches_cat_inv in Hm as (s1 & g1 & H1 & H2).
  apply matches_lit_inv in H1 as [-> _].
  apply matches_cat_inv in H2 as (s2 & g2 & H3 & H4).
  apply matches_suffix in H3 as [w ->].
  apply matches_block_end in H4 as (y & -> & Hy).
  pose proof (Hfirst _ _ Hab) as Hlen.
  rewrite Hd in Hab.
  replace (a ++ lit "Crash State:\n" ++ w ++ LF :: y)
    with ((a ++ lit "Crash State:\n" ++ w) ++ LF :: y) in Hab
    by (by rewrite <- !app_assoc).
  replace (pre ++ lit "Crash State:\n" ++ rest)
    with ((pre ++ lit "Crash State:\n") ++ rest) in Hab
    by (by rewrite <- !app_assoc).
  apply app_eq_suffix in Hab as (b1 & -> & _).
  - by apply (Hopen b1 y).
  - rewrite !length_app. lia.
Qed.
End CrashState.

(** ** Deciding the side conditions *)

Section Deciding.
Lemma find_sub_first sub d n :
  find_sub sub d = Some n ->
  forall a b, d = a ++ sub ++ b -> (n <= length a)%nat.
Proof.
  revert n. induction d as [|c d IH]; intros n.
  - simpl. destruct (startswith sub []); [intros [= <-]; lia | done].
  - simpl. destruct (startswith sub (c :: d)) eqn:Hs.
    + intros [= <-]. lia.
    + destruct (find_sub sub d) as [n'|]; [|done]. intros [= <-].
      intros [|c' a] b Hd.
      * exfalso. assert (startswith sub (c :: d) = true); [|congruence].
        apply startswith_spec. by exists b.
      * injection Hd as -> ->. specialize (IH n' eq_refl _ _ eq_refl).
        simpl. lia.
Qed.

Lemma blank_line_b_spec y : blank_line_b y = true <-> Spec.blank_line y.
Proof.
  induction y as [|c y IH]; simpl.
  - split; [done|]. intros (w & z & H & _). by destruct w.
  - rewrite orb_true_iff, andb_true_iff, IH, N.eqb_eq. split.
    + intros [->|[Hc (w & z & -> & Hw)]].
      * by exists [], y.
      * exists (c :: w), z. split; [done|]. by constructor.
    + intros ([|c' w] & z & H & Hw); injection H as -> ->.
      * by left.
      * inversion Hw; subst. right. split; [done|]. by exists w, z.
Qed.

Lemma block_end_b_spec y : block_end_b y = true <-> Spec.block_end y.
Proof.
  unfold block_end_b, Spec.block_end.
  by rewrite orb_true_iff, startswith_spec, blank_line_b_spec.
Qed.

Lemma first_end_None s :
  first_end s = None ->
  forall b1 b2, s = b1 ++ LF :: b2 -> ~ Spec.block_end b2.
Proof.
  induction s as [|c s IH]; simpl; intros H b1 b2 Hs.
  - by destruct b1.
  - destruct ((c =? LF) && block_end_b s) eqn:E; [done|].
    destruct (first_end s); [done|].
    destruct b1 as [|c' b1]; injection Hs as -> ->.
    + rewrite N.eqb_refl in E. simpl in E.
      rewrite <- block_end_b_spec. congruence.
    + by apply (IH eq_refl b1).
Qed.

End Deciding.


Lemma crash_state_unterminated_witness :
  @_get_crash_state ascii_only text_crash_open
  = Raise (Warning re_crash_state text_crash_open 1).
Proof.
  apply (@crash_state_unterminated ascii_only text_crash_open
           (lit "Crash Type: Heap-use-after-free\n")
           (lit "  top frame\n  middle\n  bottom")).
  - vm_compute. reflexivity.
  - apply (find_sub_first _ _ 32). vm_compute. reflexivity.
  - apply first_end_None. vm_compute. reflexivity.
Defined.


(** A blank line right after the "Crash State:" line does not end the
    block either: the frame after it is returned. *)
Lemma crash_state_leading_blank_line :
  @_get_crash_state ascii_only text_crash_blank_first = Ok [lit "frame"].
Proof. vm_compute. reflexivity. Qed.

(** ** The fixed commits rule *)

Section FixedCommits.
Context {U : Unicode}.

Lemma fixed_pattern_sets_group id : Re.sets_group (Spec.fixed_pattern id) = true.
Proof. unfold Spec.fixed_pattern. by destruct (id <=? 14834)%Z. Qed.

Lemma search_group r s m :
  Re.sets_group r = true ->
  Re.search NOFLAGS r s = Some m ->
  is_Some (Re.m_group1 m) /\ Re.group m 1 = Ok (Re.m_group1 m).
Proof.
  intros Hr (a & b & _ & H)%search_Some.
  apply match_at_Some in H as [Hre [s' Hm]]. split.
  - eapply matches_group_set; eauto.
  - unfold Re.group. by rewrite Hre, (sets_group_has_group _ Hr).
Qed.

Lemma fixed_commits_loop_skip r pre rest acc :
  (forall c, c ∈ pre ->
             comment_author c <> lit "ClusterFuzz-External"
             \/ Re.search NOFLAGS r (comment_body c) = None) ->
  fixed_commits_loop r (pre ++ rest) acc = fixed_commits_loop r rest acc.
Proof.
  induction pre as [|c pre IH]; intros Hpre; [done|]. simpl.
  assert (forall c', c' ∈ pre ->
            comment_author c' <> lit "ClusterFuzz-External"
            \/ Re.search NOFLAGS r (comment_body c') = None) as Hpre'
    by (intros c' Hc'; apply Hpre; by apply elem_of_cons; right).
  destruct (Hpre c) as [Ha|Hs]; [by apply elem_of_cons; left| |].
  - rewrite bool_decide_eq_true_2 by done. by apply IH.
  - destruct (bool_decide _); [by apply IH|]. rewrite Hs. by apply IH.
Qed.

(** The scan of the comments, in order.  A comment counts when its author
    is exactly "ClusterFuzz-External" and the pattern chosen by the id is
    found in its body; the group of the first such comment is returned,
    and [None], without raising, when there is no such comment. *)
Lemma fixed_commits_scan :
  (forall id,
      ((id <= 14834)%Z -> Spec.fixed_pattern id = re_fixed)
      /\ ((14835 <= id)%Z -> Spec.fixed_pattern id = re_verified_fixed))
  /\ (forall comments id,
        (forall c, c ∈ comments ->
                   comment_author c <> lit "ClusterFuzz-External"
                   \/ Re.search NOFLAGS (Spec.fixed_pattern id)
                                (comment_body c) = None) ->
        _get_fixed_commits_url comments id = Ok None)
  /\ (forall pre c post id m,
        (forall c', c' ∈ pre ->
                    comment_author c' <> lit "ClusterFuzz-External"
                    \/ Re.search NOFLAGS (Spec.fixed_pattern id)
                                 (comment_body c') = None) ->
        comment_author c = lit "ClusterFuzz-External" ->
        Re.search NOFLAGS (Spec.fixed_pattern id) (comment_body c) = Some m ->
        is_Some (Re.m_group1 m)
        /\ _get_fixed_commits_url (pre ++ c :: post) id
           = Ok (Re.m_group1 m))
  /\ _get_fixed_commits_url
       [comment_unrelated; comment_fuzzy_author; comment_verified;
        comment_verified_again] 20000
     = Ok (Some (lit "abcd1234"))
  /\ _get_fixed_commits_url [comment_unrelated; comment_fuzzy_author] 20000
     = Ok None.
Proof.
  split; [|split; [|split; [|split; vm_compute; reflexivity]]].
  - intros id. unfold Spec.fixed_pattern. split; intros Hid.
    + destruct (Z.leb_spec id 14834); [done|lia].
    + destruct (Z.leb_spec id 14834); [lia|done].
  - intros comments id Hnone. unfold _get_fixed_commits_url.
    fold (Spec.fixed_pattern id).
    rewrite <- (app_nil_r comments).
    by rewrite fixed_commits_loop_skip.
  - intros pre c post id m Hpre Hc Hm. unfold _get_fixed_commits_url.
    fold (Spec.fixed_pattern id).
    rewrite fixed_commits_loop_skip by done. simpl.
    rewrite bool_decide_eq_false_2 by (by intros []).
    rewrite Hm.
    apply (search_group (Spec.fixed_pattern id) (comment_body c));
      [apply fixed_pattern_sets_group | done].
Qed.

(** C8, on the code: with id 20000, a comment of "ClusterFuzz-External"
    whose body is "ClusterFuzz testcase 123 is verified as fixed in
    abcd1234" and an unrelated comment, the rule returns [None]: as the
    last thing of the body, without a line feed, the commit range is not
    found.  With a line feed after it the range is returned.  It is the
    same for "Fixed: " up to id 14834, and each id reads its own pattern
    only. *)
Theorem fixed_commits_last_line :
  _get_fixed_commits_url [comment_verified_open; comment_unrelated] 20000
  = Ok None
  /\ _get_fixed_commits_url [comment_verified; comment_unrelated] 20000
     = Ok (Some (lit "abcd1234"))
  /\ _get_fixed_commits_url [comment_fixed_open; comment_unrelated] 14834
     = Ok None
  /\ _get_fixed_commits_url [comment_fixed; comment_unrelated] 14834
     = Ok (Some (lit "https://r/3:4"))
  /\ _get_fixed_commits_url [comment_fixed; comment_unrelated] 14835
     = Ok None
  /\ _get_fixed_commits_url [comment_verified; comment_unrelated] 14834
     = Ok None.
Proof. repeat split; vm_compute; reflexivity. Qed.
End FixedCommits.

Lemma fixed_commits_scan_on_thread :
  @_get_fixed_commits_url ascii_only
     [comment_unrelated; comment_fuzzy_author; comment_verified;
      comment_verified_again] 20000
  = Ok (Some (lit "abcd1234"))
  /\ @_get_fixed_commits_url ascii_only
       [comment_unrelated; comment_fuzzy_author] 20000 = Ok None.
Proof.
  destruct (@fixed_commits_scan ascii_only) as (_ & Hnone & Hfirst & _).
  split.
  - destruct (@Re.search ascii_only NOFLAGS (Spec.fixed_pattern 20000)
                (comment_body comment_verified)) as [m|] eqn:E;
      [|vm_compute in E; discriminate E].
    destruct (Hfirst [comment_unrelated; comment_fuzzy_author]
                comment_verified [comment_verified_again] 20000%Z m)
      as [_ Heq].
    + intros c' [->|[->|[]%elem_of_nil]%elem_of_cons]%elem_of_cons;
        left; vm_compute; discriminate.
    + reflexivity.
    + exact E.
    + change ([comment_unrelated; comment_fuzzy_author]
              ++ comment_verified :: [comment_verified_again])
        with [comment_unrelated; comment_fuzzy_author; comment_verified;
              comment_verified_again] in Heq.
      rewrite Heq. vm_compute in E. injection E as <-. reflexivity.
  - apply Hnone.
    intros c' [->|[->|[]%elem_of_nil]%elem_of_cons]%elem_of_cons;
      left; vm_compute; discriminate.
Defined.

(** * More properties of the parser *)

(** ** A field line, found and only found in the text *)

Section FieldFacts.
Context {U : Unicode}.

Lemma matches_grp_inv dotall r s g s' g' :
  Re.matches dotall (Grp r) s g s' g' ->
  (exists g0, Re.matches dotall r s g s' g0)
  /\ g' = Some (take (length s - length s') s).
Proof. inversion 1; subst. eauto. Qed.

(** Before the first occurrence of its leading literal a pattern matches
    nowhere. *)
Lemma no_match_before_lit dotall l r d pre a1 a2 rest :
  d = pre ++ rest ->
  (forall a b, d = a ++ l ++ b -> (length pre <= length a)%nat) ->
  pre = a1 ++ a2 -> a2 <> [] ->
  Re.match_at dotall false (Lit l +++ r) (a2 ++ rest) = None.
Proof.
  intros -> Hfirst -> Ha2. apply match_at_None. intros (s' & g' & Hm).
  apply matches_cat_inv in Hm as (s1 & g1 & H1 & _).
  apply matches_lit_inv in H1 as [E _].
  specialize (Hfirst a1 s1). rewrite <- app_assoc, E in Hfirst.
  specialize (Hfirst eq_refl). rewrite length_app in Hfirst.
  destruct a2; [done|]. simpl in Hfirst. lia.
Qed.

Lemma can_match_one dotall a s :
  Re.can_match dotall (One a) s <->
  exists c s', s = c :: s' /\ Re.cset_match dotall a c = true.
Proof.
  split.
  - intros (s' & g' & Hm). apply matches_one_inv in Hm as (c & -> & Hc & _).
    eauto.
  - intros (c & s' & -> & Hc). exists s', None. by constructor.
Qed.

Lemma nl_or_dollar_match dotall c :
  Re.cset_match dotall nl_or_dollar c = true <-> c = LF \/ c = chr "$".
Proof.
  cbn. rewrite orb_true_iff, !N.eqb_eq. done.
Qed.

Lemma dot_match (v : str) :
  Forall (fun c => Re.cset_match NOFLAGS CDot c = true) v <-> LF ∉ v.
Proof.
  rewrite Forall_forall. cbn. split.
  - intros H Hin. specialize (H _ Hin). by rewrite N.eqb_refl in H.
  - intros H c Hc. apply negb_true_iff, N.eqb_neq. by intros ->.
Qed.

(** The value of a field line is captured from the first occurrence of
    the label, when it is long enough, holds no line feed, and is followed
    by the first line feed or dollar sign after its first [lo]
    characters. *)
Lemma field_found d pre l lo v t rest gently :
  d = pre ++ l ++ v ++ t :: rest ->
  (forall a b, d = a ++ l ++ b -> (length pre <= length a)%nat) ->
  (lo <= length v)%nat -> LF ∉ v -> chr "$" ∉ drop lo v ->
  t = LF \/ t = chr "$" ->
  capture d (Lit l +++ Grp (Rep CDot lo false) +++ One nl_or_dollar)
          NOFLAGS 1 gently
  = Ok (Some v).
Proof.
  intros Hd Hfirst Hlo Hlf Hdollar Ht.
  destruct (match_at_lazy_field NOFLAGS l CDot lo (One nl_or_dollar) v
              (t :: rest)) as (m & Hm & Hg).
  - reflexivity.
  - by apply dot_match.
  - done.
  - intros x1 x2 -> Hx2 Hl (c & s' & E & Hc)%can_match_one.
    apply nl_or_dollar_match in Hc.
    destruct x2 as [|c' x2]; [done|]. injection E as -> _.
    destruct Hc as [->| ->].
    + apply Hlf. rewrite elem_of_app. right. by left.
    + apply Hdollar. rewrite drop_app.
      rewrite elem_of_app. right.
      replace (lo - length x1)%nat with O by lia. by left.
  - apply can_match_one. exists t, rest. split; [done|].
    by apply nl_or_dollar_match.
  - unfold capture.
    assert (Re.search NOFLAGS
              (Lit l +++ Grp (Rep CDot lo false) +++ One nl_or_dollar) d
            = Some m) as ->.
    { rewrite Hd. apply search_first; [|exact Hm].
      intros a1 a2 Hpre Ha2.
      eapply no_match_before_lit; [reflexivity| |exact Hpre|exact Ha2].
      by rewrite <- Hd. }
    apply match_at_Some in Hm as [Hre _].
    unfold Re.group. by rewrite Hre, Hg.
Qed.

(** Conversely a captured value stands in the text between the label and
    a line feed or dollar sign, and holds no line feed. *)
Lemma field_sound d l lo gently v :
  capture d (Lit l +++ Grp (Rep CDot lo false) +++ One nl_or_dollar)
          NOFLAGS 1 gently
  = Ok (Some v) ->
  exists pre t rest,
    d = pre ++ l ++ v ++ t :: rest /\ (t = LF \/ t = chr "$")
    /\ (lo <= length v)%nat /\ LF ∉ v.
Proof.
  unfold capture.
  destruct (Re.search NOFLAGS _ d) as [m|] eqn:E;
    [|by destruct gently].
  apply search_Some in E as (pre & b & -> & E).
  apply match_at_Some in E as [Hre [s' Hm]].
  unfold Re.group. rewrite Hre. cbn [Re.has_group orb]. intros [= Hg].
  rewrite Hg in Hm.
  apply matches_cat_inv in Hm as (s1 & g1 & H1 & H2).
  apply matches_lit_inv in H1 as [-> ->].
  apply matches_cat_inv in H2 as (s2 & g2 & H3 & H4).
  apply matches_grp_inv in H3 as [[g0 H3] ->].
  apply matches_rep_inv in H3 as (w & -> & Hw & Hlo & _).
  apply matches_one_inv in H4 as (t & -> & Ht & [= E]).
  assert (v = w) as ->.
  { rewrite E, length_app. cbn [length].
    replace (length w + S (length s') - S (length s'))%nat
      with (length w) by lia.
    apply take_app_length. }
  clear E.
  exists pre, t, s'. split; [done|].
  split; [exact (proj1 (nl_or_dollar_match NOFLAGS t) Ht)|]. split; [done|].
  by apply dot_match.
Qed.
End FieldFacts.

(** ** [capture]: strict and gentle *)

Section CaptureFacts.
Context {U : Unicode}.

Lemma search_group1 fl r s m :
  Re.sets_group r = true ->
  Re.search fl r s = Some m ->
  is_Some (Re.m_group1 m) /\ Re.group m 1 = Ok (Re.m_group1 m)
  /\ Re.m_re m = r.
Proof.
  intros Hr (a & b & _ & H)%search_Some.
  apply match_at_Some in H as [Hre [s' Hm]]. split; [|split; [|done]].
  - eapply matches_group_set; eauto.
  - unfold Re.group. by rewrite Hre, (sets_group_has_group _ Hr).
Qed.

(** A gentle capture is the strict one with its warning turned into
    [None]. *)
Lemma capture_gently_eq d r fl :
  Re.sets_group r = true ->
  capture d r fl 1 true
  = match capture d r fl 1 false with
    | Ok v => Ok v
    | Raise _ => Ok None
    end.
Proof.
  intros Hr. unfold capture.
  destruct (Re.search fl r d) as [m|] eqn:E; [|done].
  apply search_group1 in E as (_ & -> & _); done.
Qed.

(** A pattern finds nothing in a text that does not hold its leading
    literal. *)
Lemma search_without_lit fl l r d :
  ~ (exists a b, d = a ++ l ++ b) ->
  Re.search fl (Lit l +++ r) d = None.
Proof.
  intros Hno. apply search_None. intros a b ->.
  apply match_at_None. intros (s' & g' & Hm).
  apply matches_cat_inv in Hm as (s1 & g1 & H1 & _).
  apply matches_lit_inv in H1 as [-> _]. apply Hno. eauto.
Qed.

(** X1: for a pattern with exactly one group, which takes part in every
    match, the gentle capture never raises, it returns [None] exactly when
    the strict one raises its warning, and otherwise both return the same
    string; the strict one never returns [None].  Asking for a second or
    later group, which such a pattern does not have, raises [IndexError]
    once the pattern is found, gently or not. *)
Theorem capture_strict_and_gentle d r fl :
  count_groups r = 1%nat ->
  Re.sets_group r = true ->
  (exists v, capture d r fl 1 true = Ok v)
  /\ (capture d r fl 1 true = Ok None
      <-> capture d r fl 1 false = Raise (Warning r d 1))
  /\ (forall s, capture d r fl 1 true = Ok (Some s)
                <-> capture d r fl 1 false = Ok (Some s))
  /\ capture d r fl 1 false <> Ok None
  /\ (forall n gently, (2 <= n)%nat -> Re.search fl r d <> None ->
                       capture d r fl n gently = Raise IndexError).
Proof.
  intros _ Hr. unfold capture.
  destruct (Re.search fl r d) as [m|] eqn:E.
  - apply search_group1 in E as ([s Hs] & -> & _); [|done]. rewrite Hs.
    split; [eauto|]. split; [done|]. split; [done|]. split; [done|].
    intros [|[|n]] gently Hn _; [lia|lia|done].
  - split; [eauto|]. split; [done|]. split; [done|]. split; [done|].
    intros n gently _ H. done.
Qed.
End CaptureFacts.

Lemma capture_strict_and_gentle_witness :
  @capture ascii_only text_job_open re_job_type NOFLAGS 1 true = Ok None
  <-> @capture ascii_only text_job_open re_job_type NOFLAGS 1 false
      = Raise (Warning re_job_type text_job_open 1).
Proof.
  destruct (@capture_strict_and_gentle ascii_only text_job_open re_job_type
              NOFLAGS) as (_ & H & _).
  - reflexivity.
  - reflexivity.
  - exact H.
Defined.

(** ** The strict single-line rules on a text *)

Section StrictLines.
Context {U : Unicode}.

(** X2: the job type is the text between the first "Job Type: " and the
    line feed or dollar sign that follows it, when that text is not empty,
    holds no line feed, and no dollar sign after its first character. *)
Theorem job_type_found d pre v t rest :
  d = pre ++ lit "Job Type: " ++ v ++ t :: rest ->
  (forall a b, d = a ++ lit "Job Type: " ++ b -> (length pre <= length a)%nat) ->
  v <> [] -> LF ∉ v -> chr "$" ∉ drop 1 v ->
  t = LF \/ t = chr "$" ->
  _get_job_type d = Ok (Some v) /\ _get_jobtype d = Ok (Some v).
Proof.
  intros Hd Hfirst Hv Hlf Hdollar Ht.
  assert (capture d re_job_type NOFLAGS 1 false = Ok (Some v)) as E.
  { apply (field_found d pre (lit "Job Type: ") 1 v t rest); try done.
    destruct v; [done | simpl; lia]. }
  done.
Qed.

(** X3: a job type that is returned stands in the text, after
    "Job Type: " and before a line feed or a dollar sign; it is not empty
    and holds no line feed.  The rule never returns [None]. *)
Theorem job_type_sound d v :
  _get_job_type d = Ok v ->
  exists jt pre t rest,
    v = Some jt
    /\ d = pre ++ lit "Job Type: " ++ jt ++ t :: rest
    /\ (t = LF \/ t = chr "$") /\ jt <> [] /\ LF ∉ jt.
Proof.
  intros H. pose proof H as Hdef.
  apply capture_strict_defined in Hdef as [jt ->]; [|done].
  apply (field_sound d (lit "Job Type: ") 1) in H
    as (pre & t & rest & Hd & Ht & Hlen & Hlf).
  exists jt, pre, t, rest. repeat split; try done.
  intros ->. simpl in Hlen. lia.
Qed.

(** X4: the crash type and the crash address are the text between the
    first occurrence of their label and the line feed or dollar sign that
    follows; the text may be empty. *)
Theorem crash_fields_found d pre v t rest :
  LF ∉ v -> chr "$" ∉ v -> t = LF \/ t = chr "$" ->
  (d = pre ++ lit "Crash Type: " ++ v ++ t :: rest ->
   (forall a b, d = a ++ lit "Crash Type: " ++ b ->
                (length pre <= length a)%nat) ->
   _get_crash_type d = Ok (Some v))
  /\ (d = pre ++ lit "Crash Address: " ++ v ++ t :: rest ->
      (forall a b, d = a ++ lit "Crash Address: " ++ b ->
                   (length pre <= length a)%nat) ->
      _get_crash_address d = Ok (Some v)).
Proof.
  intros Hlf Hdollar Ht. split; intros Hd Hfirst.
  - apply (field_found d pre (lit "Crash Type: ") 0 v t rest); try done.
    lia.
  - apply (field_found d pre (lit "Crash Address: ") 0 v t rest); try done.
    lia.
Qed.

(** X5: a job type line without a value is not a job type: when the only
    "Job Type: " of the text is followed at once by a line feed, the rule
    raises, where the crash type rule returns the empty string. *)
Theorem job_type_empty_value d pre rest :
  d = pre ++ lit "Job Type: " ++ LF :: rest ->
  (forall a b, d = a ++ lit "Job Type: " ++ b -> a = pre) ->
  _get_job_type d = Raise (Warning re_job_type d 1).
Proof.
  intros Hd Honly. unfold _get_job_type, capture.
  destruct (Re.search NOFLAGS re_job_type d) as [m|] eqn:E; [exfalso|done].
  apply search_Some in E as (a & b & Hab & E).
  apply match_at_Some in E as [_ [s' Hm]].
  unfold re_job_type in Hm.
  apply matches_cat_inv in Hm as (s1 & g1 & H1 & H2).
  apply matches_lit_inv in H1 as [-> _].
  apply matches_cat_inv in H2 as (s2 & g2 & H3 & _).
  apply matches_grp_inv in H3 as [[g0 H3] _].
  apply matches_rep_inv in H3 as (w & -> & Hw & Hlo & _).
  pose proof (Honly _ _ Hab) as ->.
  rewrite Hd in Hab. apply app_inv_head in Hab. apply app_inv_head in Hab.
  destruct w as [|c w]; [simpl in Hlo; lia|].
  injection Hab as <- _. inversion Hw as [|? ? Hc _]; subst. done.
Qed.
End StrictLines.

Lemma job_type_found_witness :
  @_get_job_type ascii_only text_platform = Ok (Some (lit "libfuzzer_asan_alpha"))
  /\ @_get_jobtype ascii_only text_platform = Ok (Some (lit "libfuzzer_asan_alpha")).
Proof.
  apply (@job_type_found ascii_only text_platform [] (lit "libfuzzer_asan_alpha")
           LF (lit "Platform Id: linux\n")).
  - vm_compute. reflexivity.
  - intros a b _. simpl. lia.
  - discriminate.
  - apply (bool_decide_eq_true_1 _). vm_compute. reflexivity.
  - apply (bool_decide_eq_true_1 _). vm_compute. reflexivity.
  - left. reflexivity.
Defined.

Lemma job_type_sound_witness :
  exists jt pre t rest,
    Some (lit "libfuzzer_asan_alpha") = Some jt
    /\ text_job_ended = pre ++ lit "Job Type: " ++ jt ++ t :: rest
    /\ (t = LF \/ t = chr "$") /\ jt <> [] /\ LF ∉ jt.
Proof.
  apply (@job_type_sound ascii_only text_job_ended).
  vm_compute. reflexivity.
Defined.

Lemma crash_fields_found_witness :
  @_get_crash_type ascii_only text_crash_fields = Ok (Some (lit "")).
Proof.
  destruct (@crash_fields_found ascii_only text_crash_fields [] (lit "") LF
              (lit "Crash Address: 0x10\nCrash State:\n  f\n\n")) as [H _].
  - apply not_elem_of_nil.
  - apply not_elem_of_nil.
  - left. reflexivity.
  - apply H.
    + vm_compute. reflexivity.
    + intros a b _. simpl. lia.
Defined.

Lemma occurrences_spec sub (a b : str) :
  length a ∈ occurrences sub (a ++ sub ++ b).
Proof.
  induction a as [|c a IH].
  - assert (startswith sub (sub ++ b) = true) as Hs
      by (apply startswith_spec; eauto).
    cbn [app length]. revert Hs. generalize (sub ++ b). intros d Hs.
    destruct d; cbn [occurrences]; rewrite Hs; by left.
  - cbn [app length occurrences]. rewrite elem_of_app. right.
    apply list_elem_of_fmap. eauto.
Qed.

(** A single occurrence is the only place where the text splits. *)
Lemma occurrences_only sub (d pre : str) :
  occurrences sub d = [length pre] ->
  (exists b, d = pre ++ b) ->
  forall a b, d = a ++ sub ++ b -> a = pre.
Proof.
  intros Hocc [b0 Hpre] a b Hd.
  pose proof (occurrences_spec sub a b) as Hin.
  rewrite <- Hd, Hocc in Hin. apply list_elem_of_singleton in Hin.
  rewrite <- (take_app_length a (sub ++ b)), <- Hd, Hin, Hpre.
  apply take_app_length.
Qed.

Lemma job_type_empty_value_witness :
  @_get_job_type ascii_only text_job_empty
  = Raise (Warning re_job_type text_job_empty 1).
Proof.
  apply (@job_type_empty_value ascii_only text_job_empty
           (lit "Project: alpha\n") (lit "Crash Type: x\n")).
  - vm_compute. reflexivity.
  - apply occurrences_only.
    + vm_compute. reflexivity.
    + eexists. vm_compute. reflexivity.
Defined.

(** ** The rules with fallbacks *)

Section Fallbacks.
Context {U : Unicode}.

(** X6: the platform rule never raises and never returns [None]: it is
    the strict capture of "Platform Id: ", and the empty string where
    that capture would raise, as on every text without the label. *)
Theorem platform_id_rule d :
  (exists v, _get_platform_id d = Ok (Some v))
  /\ (forall v, capture d re_platform_id NOFLAGS 1 false = Ok (Some v) ->
                _get_platform_id d = Ok (Some v))
  /\ (forall e, capture d re_platform_id NOFLAGS 1 false = Raise e ->
                _get_platform_id d = Ok (Some (lit "")))
  /\ (~ (exists a b, d = a ++ lit "Platform Id: " ++ b) ->
      _get_platform_id d = Ok (Some (lit ""))).
Proof.
  unfold _get_platform_id. rewrite capture_gently_eq by done.
  assert (~ (exists a b, d = a ++ lit "Platform Id: " ++ b) ->
          exists e, capture d re_platform_id NOFLAGS 1 false = Raise e) as Hno.
  { intros Hno. unfold capture, re_platform_id.
    rewrite search_without_lit by done. simpl. eauto. }
  destruct (capture d re_platform_id NOFLAGS 1 false) as [v|e] eqn:E.
  - apply capture_strict_defined in E as [s ->]; [|done].
    rewrite bind_Ok. cbn [is_None negb].
    split; [eauto|]. split; [by intros ? [= <-]|]. split; [done|].
    intros [e He]%Hno. done.
  - rewrite bind_Ok. cbn [is_None negb]. split; [eauto|]. done.
Qed.

(** X7: the regressed commits rule never raises.  "Regressed: " wins
    wherever it stands in the text; "Crash Revision: " is used only when
    the first capture would raise; the result is [None] when both
    would. *)
Theorem regressed_commits_rule d :
  (exists v, _get_regressed_commits_url d = Ok v)
  /\ (forall u, capture d re_regressed NOFLAGS 1 false = Ok (Some u) ->
                _get_regressed_commits_url d = Ok (Some u))
  /\ (forall e, capture d re_regressed NOFLAGS 1 false = Raise e ->
                (forall u, capture d re_crash_revision NOFLAGS 1 false
                           = Ok (Some u) ->
                           _get_regressed_commits_url d = Ok (Some u))
                /\ (forall e', capture d re_crash_revision NOFLAGS 1 false
                               = Raise e' ->
                               _get_regressed_commits_url d = Ok None)).
Proof.
  unfold _get_regressed_commits_url. rewrite !capture_gently_eq by done.
  destruct (capture d re_regressed NOFLAGS 1 false) as [v|e] eqn:E1.
  - apply capture_strict_defined in E1 as [s ->]; [|done].
    rewrite bind_Ok. cbn [is_None negb].
    split; [eauto|]. split; [by intros ? [= <-]|]. done.
  - rewrite bind_Ok. cbn [is_None negb].
    destruct (capture d re_crash_revision NOFLAGS 1 false) as [v|e'] eqn:E2.
    + apply capture_strict_defined in E2 as [s ->]; [|done].
      rewrite bind_Ok. cbn [is_None negb].
      split; [eauto|]. split; [done|]. intros _ _. split; [|done].
      by intros ? [= <-].
    + rewrite bind_Ok. cbn [is_None negb].
      split; [eauto|]. split; [done|]. done.
Qed.

(** X8: the testcase rule tries "Reproducer Testcase: ", then
    "Minimized Testcase (...): ", then "Unminimized Testcase: ", then
    "Download: "; the first of the four that is found gives the url,
    wherever the others stand, and when none is found the rule raises the
    warning of the last. *)
Theorem testcase_url_rule d :
  let strict r := capture d r NOFLAGS 1 false in
  (forall u, strict re_reproducer_testcase = Ok (Some u) ->
             _get_testcase_url d = Ok (Some u))
  /\ (forall e1, strict re_reproducer_testcase = Raise e1 ->
        (forall u, strict re_minimized_testcase = Ok (Some u) ->
                   _get_testcase_url d = Ok (Some u))
        /\ (forall e2, strict re_minimized_testcase = Raise e2 ->
              (forall u, strict re_unminimized_testcase = Ok (Some u) ->
                         _get_testcase_url d = Ok (Some u))
              /\ (forall e3, strict re_unminimized_testcase = Raise e3 ->
                    _get_testcase_url d = strict re_download)))
  /\ ((forall r, r ∈ [re_reproducer_testcase; re_minimized_testcase;
                      re_unminimized_testcase; re_download] ->
                 Re.search NOFLAGS r d = None) ->
      _get_testcase_url d = Raise (Warning re_download d 1)).
Proof.
  cbv zeta. unfold _get_testcase_url. rewrite !capture_gently_eq by done.
  split; [|split].
  - intros u ->. done.
  - intros e1 ->. rewrite bind_Ok. cbn [is_None negb]. split.
    + intros u ->. done.
    + intros e2 ->. rewrite bind_Ok. cbn [is_None negb]. split.
      * intros u ->. done.
      * intros e3 ->. done.
  - intros Hnone. unfold capture.
    rewrite !Hnone by (repeat (first [by left | right])). done.
Qed.

Lemma split_max_one_none (sep : char) (f : str) :
  sep ∉ f -> split_max sep 1 f = [f].
Proof.
  induction f as [|c f IH]; [done|].
  intros [Hne Hin]%not_elem_of_cons. cbn [split_max].
  destruct (N.eqb_spec c sep) as [->|_]; [done|]. by rewrite IH.
Qed.

Lemma split_max_one_some (sep : char) (x r : str) :
  sep ∉ x -> split_max sep 1 (x ++ sep :: r) = [x; r].
Proof.
  induction x as [|c x IH].
  - intros _. cbn [app split_max]. rewrite N.eqb_refl. by destruct r.
  - intros [Hne Hin]%not_elem_of_cons. cbn [app split_max].
    destruct (N.eqb_spec c sep) as [->|_]; [done|]. by rewrite IH.
Qed.

(** X9: the fuzz target rule tries "Fuzz Target: " (or "Fuzz target: "),
    then "Fuzz target binary: ", then "Fuzzer binary: ".  When none is
    found it reads "Fuzzer: ": one of the four special fuzzers is returned
    as it is, any other value gives what follows its first underscore,
    and the empty string when it has none. *)
Theorem fuzz_target_binary_rule d id :
  let strict r := capture d r NOFLAGS 1 false in
  (forall u, strict re_fuzz_target = Ok (Some u) ->
             _get_fuzz_target_binary d id = Ok (Some u))
  /\ (forall e1, strict re_fuzz_target = Raise e1 ->
        (forall u, strict re_fuzz_target_binary = Ok (Some u) ->
                   _get_fuzz_target_binary d id = Ok (Some u))
        /\ (forall e2, strict re_fuzz_target_binary = Raise e2 ->
              (forall u, strict re_fuzzer_binary = Ok (Some u) ->
                         _get_fuzz_target_binary d id = Ok (Some u))
              /\ (forall e3, strict re_fuzzer_binary = Raise e3 ->
                    (forall e4, strict re_fuzzer = Raise e4 ->
                                _get_fuzz_target_binary d id = Raise e4)
                    /\ (forall f, strict re_fuzzer = Ok (Some f) ->
                          (f ∈ special_fuzzers ->
                           _get_fuzz_target_binary d id = Ok (Some f))
                          /\ (f ∉ special_fuzzers -> chr "_" ∉ f ->
                              _get_fuzz_target_binary d id = Ok (Some (lit "")))
                          /\ (f ∉ special_fuzzers ->
                              forall x r, f = x ++ chr "_" :: r ->
                                          chr "_" ∉ x ->
                                          _get_fuzz_target_binary d id
                                          = Ok (Some r)))))).
Proof.
  cbv zeta. unfold _get_fuzz_target_binary.
  rewrite !capture_gently_eq by done. split.
  - intros u ->. done.
  - intros e1 ->. rewrite bind_Ok. cbn [is_None negb]. split.
    + intros u ->. done.
    + intros e2 ->. rewrite bind_Ok. cbn [is_None negb]. split.
      * intros u ->. done.
      * intros e3 ->. rewrite bind_Ok. cbn [is_None negb]. split.
        -- intros e4 ->. done.
        -- intros f ->. rewrite bind_Ok. unfold in_list. split; [|split].
           ++ intros Hin. by rewrite bool_decide_eq_true_2.
           ++ intros Hin Hno. rewrite bool_decide_eq_false_2 by done.
              cbn [as_str]. rewrite bind_Ok.
              by rewrite split_max_one_none.
           ++ intros Hin x r -> Hx. rewrite bool_decide_eq_false_2 by done.
              cbn [as_str]. rewrite bind_Ok.
              by rewrite split_max_one_some.
Qed.
End Fallbacks.

Ltac decide_by_computing :=
  apply (bool_decide_eq_true_1 _); vm_compute; reflexivity.

Lemma platform_id_rule_witness :
  @_get_platform_id ascii_only text_platform = Ok (Some (lit "linux"))
  /\ @_get_platform_id ascii_only text_job_ended = Ok (Some (lit "")).
Proof.
  split.
  - destruct (@platform_id_rule ascii_only text_platform) as (_ & H & _).
    apply H. vm_compute. reflexivity.
  - destruct (@platform_id_rule ascii_only text_job_ended) as (_ & _ & _ & H).
    apply H. rewrite <- contains_spec. vm_compute. discriminate.
Defined.

Lemma regressed_commits_rule_witness :
  @_get_regressed_commits_url ascii_only text_revision_then_regressed
  = Ok (Some (lit "https://r/2"))
  /\ @_get_regressed_commits_url ascii_only text_revision_only
     = Ok (Some (lit "https://r/1")).
Proof.
  split.
  - destruct (@regressed_commits_rule ascii_only text_revision_then_regressed)
      as (_ & H & _).
    apply H. vm_compute. reflexivity.
  - destruct (@regressed_commits_rule ascii_only text_revision_only)
      as (_ & _ & H).
    destruct (H (Warning re_regressed text_revision_only 1)) as [H' _].
    + vm_compute. reflexivity.
    + apply H'. vm_compute. reflexivity.
Defined.

Lemma testcase_url_rule_witness :
  @_get_testcase_url ascii_only text_download_then_reproducer
  = Ok (Some (lit "https://t/2"))
  /\ @_get_testcase_url ascii_only text_job_ended
     = Raise (Warning re_download text_job_ended 1).
Proof.
  split.
  - destruct (@testcase_url_rule ascii_only text_download_then_reproducer)
      as (H & _).
    apply H. vm_compute. reflexivity.
  - destruct (@testcase_url_rule ascii_only text_job_ended) as (_ & _ & H).
    apply H.
    intros r [->|[->|[->|[->|[]%elem_of_nil]%elem_of_cons]%elem_of_cons]%elem_of_cons]%elem_of_cons;
      vm_compute; reflexivity.
Defined.

Lemma fuzz_target_binary_rule_witness :
  @_get_fuzz_target_binary ascii_only text_fuzzer_only 300
  = Ok (Some (lit "alpha_decode_fuzzer"))
  /\ @_get_fuzz_target_binary ascii_only text_fuzzer_and_target 300
     = Ok (Some (lit "decode_fuzzer")).
Proof.
  split.
  - destruct (@fuzz_target_binary_rule ascii_only text_fuzzer_only 300%Z)
      as (_ & H).
    destruct (H (Warning re_fuzz_target text_fuzzer_only 1)) as [_ H2];
      [vm_compute; reflexivity|].
    destruct (H2 (Warning re_fuzz_target_binary text_fuzzer_only 1))
      as [_ H3]; [vm_compute; reflexivity|].
    destruct (H3 (Warning re_fuzzer_binary text_fuzzer_only 1)) as [_ H4];
      [vm_compute; reflexivity|].
    destruct (H4 (lit "libFuzzer_alpha_decode_fuzzer")) as (_ & _ & H5);
      [vm_compute; reflexivity|].
    apply (H5 ltac:(decide_by_computing) (lit "libFuzzer")).
    + vm_compute. reflexivity.
    + decide_by_computing.
  - destruct (@fuzz_target_binary_rule ascii_only text_fuzzer_and_target 300%Z)
      as (_ & H).
    destruct (H (Warning re_fuzz_target text_fuzzer_and_target 1)) as [H2 _];
      [vm_compute; reflexivity|].
    apply H2. vm_compute. reflexivity.
Defined.

(** ** The sanitizer rule *)

Section Sanitizer.
Context {U : Unicode}.

Lemma almost_equal_name w n :
  Spec.normalize n = n ->
  almost_equal (Some w) (Some n) = bool_decide (Spec.normalize w = n).
Proof.
  intros Hn. unfold almost_equal. rewrite !sub_nonword.
  fold (Spec.normalize w). fold (Spec.normalize n). by rewrite Hn.
Qed.

Lemma sanitizer_loop_step w rest :
  _get_sanitizer_from_jobtype_loop (w :: rest)
  = if bool_decide (Spec.normalize w = lit "asan") then lit "address (ASAN)"
    else if bool_decide (Spec.normalize w = lit "ubsan") then lit "undefined (UBSAN)"
    else if bool_decide (Spec.normalize w = lit "msan") then lit "memory (MSAN)"
    else if bool_decide (Spec.normalize w = lit "tsan") then lit "thread (TSAN)"
    else if bool_decide (Spec.normalize w = lit "lsan") then lit "leak (LSAN)"
    else _get_sanitizer_from_jobtype_loop rest.
Proof.
  cbn [_get_sanitizer_from_jobtype_loop].
  rewrite !almost_equal_name by reflexivity. done.
Qed.

Lemma sanitizer_loop_skip pre rest :
  Forall Rules.no_sanitizer pre ->
  _get_sanitizer_from_jobtype_loop (pre ++ rest)
  = _get_sanitizer_from_jobtype_loop rest.
Proof.
  induction 1 as [|w pre Hw _ IH]; [done|].
  cbn [app]. rewrite sanitizer_loop_step.
  rewrite !bool_decide_eq_false_2; [done|..];
    eapply Hw; unfold Rules.sanitizers;
    repeat (first [by left | right]).
Qed.

Lemma sanitizer_loop_hit w rest n l :
  (n, l) ∈ Rules.sanitizers -> Spec.normalize w = n ->
  _get_sanitizer_from_jobtype_loop (w :: rest) = l.
Proof.
  intros Hin Hw. rewrite sanitizer_loop_step, Hw.
  unfold Rules.sanitizers in Hin.
  repeat (apply elem_of_cons in Hin as [[= -> ->]|Hin]; [reflexivity|]).
  by apply elem_of_nil in Hin.
Qed.

(** X10: the sanitizer of a job type is the label of its first word,
    between underscores, whose normal form (trimmed, case folded, non-word
    characters removed) is one of asan, ubsan, msan, tsan, lsan, and the
    empty string when no word is one of them.  A job type that is [None]
    raises. *)
Theorem sanitizer_from_jobtype_rule jt :
  (forall pre w post n l,
      split (chr "_") jt = pre ++ w :: post ->
      Forall Rules.no_sanitizer pre ->
      (n, l) ∈ Rules.sanitizers -> Spec.normalize w = n ->
      _get_sanitizer_from_jobtype (Some jt) = Ok l)
  /\ (Forall Rules.no_sanitizer (split (chr "_") jt) ->
      _get_sanitizer_from_jobtype (Some jt) = Ok (lit ""))
  /\ _get_sanitizer_from_jobtype None = Raise AttributeError.
Proof.
  unfold _get_sanitizer_from_jobtype. cbn [as_str]. rewrite bind_Ok.
  split; [|split; [|done]].
  - intros pre w post n l -> Hpre Hin Hw.
    rewrite sanitizer_loop_skip by done.
    by rewrite (sanitizer_loop_hit w post n l).
  - intros Hall. rewrite <- (app_nil_r (split _ jt)).
    by rewrite sanitizer_loop_skip.
Qed.

(** X11: the sanitizer rule by id.  Up to 383 it is derived from the job
    type and the "Sanitizer: " line is not read; from 384 it is the strict
    capture of that line and the job type is not read.  It never returns
    [None]. *)
Theorem sanitizer_rule d id :
  ((id <= 383)%Z ->
   (forall jt, capture d re_job_type NOFLAGS 1 false = Ok (Some jt) ->
               exists s, _get_sanitizer_from_jobtype (Some jt) = Ok s
                         /\ _get_sanitizer d id = Ok (Some s))
   /\ (forall e, capture d re_job_type NOFLAGS 1 false = Raise e ->
                 _get_sanitizer d id = Raise e))
  /\ ((384 <= id)%Z ->
      _get_sanitizer d id = capture d re_sanitizer NOFLAGS 1 false)
  /\ _get_sanitizer d id <> Ok None.
Proof.
  split; [|split].
  - intros Hid. unfold _get_sanitizer.
    destruct (Z.leb_spec id 383); [|lia]. split.
    + intros jt ->. rewrite bind_Ok.
      unfold _get_sanitizer_from_jobtype. cbn [as_str].
      rewrite !bind_Ok. eauto.
    + intros e ->. done.
  - intros Hid. unfold _get_sanitizer.
    destruct (Z.leb_spec id 383); [lia|].
    destruct (Z.geb_spec id 384); [done|lia].
  - intros H. by apply _get_sanitizer_defined in H as [? [=]].
Qed.
End Sanitizer.

Ltac no_sanitizer_by_computing :=
  let n := fresh "n" in let l := fresh "l" in let Hin := fresh "Hin" in
  intros n l Hin; unfold Rules.sanitizers in Hin;
  repeat (apply elem_of_cons in Hin as [[= -> ->]|Hin];
          [vm_compute; discriminate|]);
  by apply elem_of_nil in Hin.

Lemma sanitizer_from_jobtype_rule_witness :
  @_get_sanitizer_from_jobtype ascii_only (Some (lit "libfuzzer_MSan_alpha"))
  = Ok (lit "memory (MSAN)")
  /\ @_get_sanitizer_from_jobtype ascii_only (Some (lit "afl_alpha"))
     = Ok (lit "").
Proof.
  split.
  - destruct (@sanitizer_from_jobtype_rule ascii_only
                (lit "libfuzzer_MSan_alpha")) as (H & _).
    apply (H [lit "libfuzzer"] (lit "MSan") [lit "alpha"] (lit "msan")).
    + vm_compute. reflexivity.
    + constructor; [no_sanitizer_by_computing | constructor].
    + unfold Rules.sanitizers. right. right. left.
    + vm_compute. reflexivity.
  - destruct (@sanitizer_from_jobtype_rule ascii_only (lit "afl_alpha"))
      as (_ & H & _).
    apply H.
    change (split (chr "_") (lit "afl_alpha")) with [lit "afl"; lit "alpha"].
    repeat constructor; no_sanitizer_by_computing.
Defined.

Lemma sanitizer_rule_witness :
  (exists s, @_get_sanitizer_from_jobtype ascii_only
               (Some (lit "libfuzzer_MSan_alpha")) = Ok s
             /\ @_get_sanitizer ascii_only text_sanitizer_line 383
                = Ok (Some s))
  /\ @_get_sanitizer ascii_only text_sanitizer_line 384
     = @capture ascii_only text_sanitizer_line re_sanitizer NOFLAGS 1 false.
Proof.
  destruct (@sanitizer_rule ascii_only text_sanitizer_line 383%Z)
    as (Hlow & _).
  destruct (@sanitizer_rule ascii_only text_sanitizer_line 384%Z)
    as (_ & Hhigh & _).
  split.
  - destruct Hlow as [H _]; [lia|]. apply H. vm_compute. reflexivity.
  - apply Hhigh. lia.
Defined.

(** ** More about [almost_equal] *)

Section AlmostEqual.
Context {U : Unicode}.

(** X12: [almost_equal] is transitive, so with C9 it is an equivalence
    on strings and [None]. *)
Theorem almost_equal_trans a b c :
  almost_equal a b = true -> almost_equal b c = true ->
  almost_equal a c = true.
Proof.
  destruct a as [s1|], b as [s2|], c as [s3|]; try done.
  rewrite !almost_equal_present. congruence.
Qed.

Lemma is_space_bound c : is_space c = true -> c <= 32 \/ 133 <= c.
Proof.
  unfold is_space, in_range.
  rewrite !orb_true_iff, !andb_true_iff, !N.leb_le, !N.eqb_eq. lia.
Qed.

Lemma in_range_spec lo hi c : in_range lo hi c = true <-> lo <= c <= hi.
Proof. unfold in_range. rewrite andb_true_iff, !N.leb_le. done. Qed.

Lemma is_space_upper c : is_space (Rules.ascii_upper c) = is_space c.
Proof.
  unfold Rules.ascii_upper. destruct (in_range 97 122 c) eqn:E; [|done].
  apply in_range_spec in E.
  destruct (is_space c) eqn:E1; [apply is_space_bound in E1; lia|].
  destruct (is_space (c - 32)) eqn:E2; [apply is_space_bound in E2; lia|].
  done.
Qed.

Lemma lstrip_upper s :
  lstrip (Rules.ascii_upper <$> s) = Rules.ascii_upper <$> lstrip s.
Proof.
  induction s as [|c s IH]; [done|].
  cbn [fmap list_fmap lstrip]. rewrite is_space_upper.
  destruct (is_space c); [apply IH | done].
Qed.

Lemma strip_upper s :
  strip (Rules.ascii_upper <$> s) = Rules.ascii_upper <$> strip s.
Proof.
  unfold strip, rstrip.
  by rewrite lstrip_upper, <- fmap_reverse, lstrip_upper, fmap_reverse.
Qed.

Lemma casefold_char_upper c :
  casefold_char (Rules.ascii_upper c) = casefold_char c.
Proof.
  unfold Rules.ascii_upper. destruct (in_range 97 122 c) eqn:E; [|done].
  apply in_range_spec in E. unfold casefold_char.
  destruct (N.ltb_spec (c - 32) 128); [|lia].
  destruct (N.ltb_spec c 128); [|lia].
  assert (in_range 65 90 (c - 32) = true) as -> by (apply in_range_spec; lia).
  assert (in_range 65 90 c = false) as ->.
  { apply not_true_iff_false. rewrite in_range_spec. lia. }
  f_equal. lia.
Qed.

Lemma casefold_upper s : casefold (Rules.ascii_upper <$> s) = casefold s.
Proof.
  induction s as [|c s IH]; [done|].
  cbn [fmap list_fmap]. unfold casefold in *. cbn [flat_map].
  by rewrite casefold_char_upper, IH.
Qed.

(** X13: [almost_equal] does not see the case of ASCII letters: writing
    the small letters of either string as capitals does not change its
    answer. *)
Theorem almost_equal_ascii_case s t :
  almost_equal (Some (Rules.ascii_upper <$> s)) (Some t)
  = almost_equal (Some s) (Some t)
  /\ almost_equal (Some s) (Some (Rules.ascii_upper <$> t))
     = almost_equal (Some s) (Some t).
Proof.
  unfold almost_equal. by rewrite !strip_upper, !casefold_upper.
Qed.
End AlmostEqual.

Lemma almost_equal_trans_witness :
  @almost_equal ascii_only (Some (lit "OSS-Fuzz")) (Some (lit "ossfuzz")) = true.
Proof.
  apply (@almost_equal_trans ascii_only _ (Some (lit " oss fuzz ")));
    vm_compute; reflexivity.
Defined.

(** ** The classifier and the assembler *)

Section Assembler.
Context {U : Unicode}.

(** X14: the classifier returns true exactly for a record whose project
    matches "oss-fuzz", whose author matches "ClusterFuzz-External" and
    whose "Type" matches "Bug" or "Bug-Security"; it raises exactly when
    the project matches and there is no "Type". *)
Theorem classifier_in_scope issue :
  (is_oss_fuzz_bug_report issue = Ok true <->
   almost_equal (Some (lit "oss-fuzz")) (Some (issue_project issue)) = true
   /\ almost_equal (Some (lit "ClusterFuzz-External"))
                   (Some (issue_author issue)) = true
   /\ exists t, issue_metadata issue !! lit "Type" = Some t
                /\ (almost_equal (Some (lit "Bug")) (Some t) = true
                    \/ almost_equal (Some (lit "Bug-Security")) (Some t)
                       = true))
  /\ ((exists e, is_oss_fuzz_bug_report issue = Raise e) <->
      almost_equal (Some (lit "oss-fuzz")) (Some (issue_project issue)) = true
      /\ issue_metadata issue !! lit "Type" = None).
Proof.
  unfold is_oss_fuzz_bug_report.
  destruct (almost_equal (Some (lit "oss-fuzz")) _) eqn:Hp;
    destruct (issue_metadata issue !! lit "Type") as [t|] eqn:Ht;
    cbn [is_None andb default]; try unfold id.
  - split.
    + split.
      * intros [= H]. apply andb_true_iff in H as [Ha Hb].
        apply orb_true_iff in Hb. split; [done|]. split; [done|]. eauto.
      * intros (_ & Ha & t' & [= <-] & Hb). rewrite Ha.
        apply orb_true_iff in Hb. by rewrite Hb.
    + split; [by intros [e H] | by intros [_ H]].
  - split.
    + split; [done | by intros (_ & _ & t' & H & _)].
    + split; [done | eauto].
  - split.
    + split; [done | by intros [H _]].
    + split; [by intros [e H] | by intros [H _]].
  - split.
    + split; [done | by intros [H _]].
    + split; [by intros [e H] | by intros [H _]].
Qed.

(** X15: the assembler changes nothing of a record but its report slot,
    and that only when it returns true; run again on the record it left,
    it gives the same answer and leaves the same record. *)
Theorem attach_idempotent issue :
  let out := attach_oss_fuzz_bug_report issue in
  attach_oss_fuzz_bug_report out.2 = out
  /\ issue_id out.2 = issue_id issue
  /\ issue_author out.2 = issue_author issue
  /\ issue_project out.2 = issue_project issue
  /\ issue_description out.2 = issue_description issue
  /\ issue_metadata out.2 = issue_metadata issue
  /\ issue_comments out.2 = issue_comments issue
  /\ (out.1 <> Ok true -> out.2 = issue).
Proof.
  cbv zeta. unfold attach_oss_fuzz_bug_report.
  destruct (is_oss_fuzz_bug_report issue) as [[|]|e] eqn:Hc.
  - destruct (parse_oss_fuzz_bug_report_details issue) as [report|e] eqn:Hp.
    + cbn [fst snd].
      change (is_oss_fuzz_bug_report (set_oss_fuzz_bug_report issue report))
        with (is_oss_fuzz_bug_report issue).
      change (parse_oss_fuzz_bug_report_details
                (set_oss_fuzz_bug_report issue report))
        with (parse_oss_fuzz_bug_report_details issue).
      rewrite Hc, Hp. repeat split; done.
    + cbn [fst snd]. rewrite Hc, Hp. repeat split; done.
  - cbn [fst snd]. rewrite Hc. repeat split; done.
  - cbn [fst snd]. rewrite Hc. repeat split; done.
Qed.

(** X16: the parse raises exactly the exception of the first of the
    twelve rules, in the order of the source, that raises, and returns
    exactly when none does. *)
Theorem parse_first_failure issue :
  (forall e, parse_oss_fuzz_bug_report_details issue = Raise e <->
             Rules.first_failure (Rules.rule_failures issue) = Some e)
  /\ ((exists report, parse_oss_fuzz_bug_report_details issue = Ok report) <->
      Rules.first_failure (Rules.rule_failures issue) = None).
Proof.
  unfold parse_oss_fuzz_bug_report_details, Rules.rule_failures.
  cbv zeta.
  set (d := issue_description issue). set (id := issue_id issue).
  destruct (_get_project d id);
    [|split; [intros e'; split; intros [= ->]; done
             |split; [by intros [? ?] | done]]].
  destruct (_get_fuzzing_engine d id);
    [|split; [intros e'; split; intros [= ->]; done
             |split; [by intros [? ?] | done]]].
  destruct (_get_fuzz_target_binary d id);
    [|split; [intros e'; split; intros [= ->]; done
             |split; [by intros [? ?] | done]]].
  destruct (_get_job_type d);
    [|split; [intros e'; split; intros [= ->]; done
             |split; [by intros [? ?] | done]]].
  destruct (_get_platform_id d);
    [|split; [intros e'; split; intros [= ->]; done
             |split; [by intros [? ?] | done]]].
  destruct (_get_crash_type d);
    [|split; [intros e'; split; intros [= ->]; done
             |split; [by intros [? ?] | done]]].
  destruct (_get_crash_address d);
    [|split; [intros e'; split; intros [= ->]; done
             |split; [by intros [? ?] | done]]].
  destruct (_get_crash_state d);
    [|split; [intros e'; split; intros [= ->]; done
             |split; [by intros [? ?] | done]]].
  destruct (_get_sanitizer d id);
    [|split; [intros e'; split; intros [= ->]; done
             |split; [by intros [? ?] | done]]].
  destruct (_get_regressed_commits_url d);
    [|split; [intros e'; split; intros [= ->]; done
             |split; [by intros [? ?] | done]]].
  destruct (_get_fixed_commits_url (issue_comments issue) id);
    [|split; [intros e'; split; intros [= ->]; done
             |split; [by intros [? ?] | done]]].
  destruct (_get_testcase_url d);
    [|split; [intros e'; split; intros [= ->]; done
             |split; [by intros [? ?] | done]]].
  split; [done|]. split; [done|]. intros _. eauto.
Qed.
End Assembler.

Lemma attach_idempotent_witness :
  (@attach_oss_fuzz_bug_report ascii_only issue_chromium).2 = issue_chromium.
Proof.
  destruct (@attach_idempotent ascii_only issue_chromium)
    as (_ & _ & _ & _ & _ & _ & _ & H).
  apply H. vm_compute. discriminate.
Defined.

(** ** The lines of a crash state *)

Section CleanLines.
Context {U : Unicode}.

Lemma lstrip_suffix s : exists w, s = w ++ lstrip s.
Proof.
  induction s as [|c s [w IH]]; [by exists []|]. simpl.
  destruct (is_space c); [|by exists []].
  exists (c :: w). simpl. by rewrite <- IH.
Qed.

Lemma lstrip_head s c : head (lstrip s) = Some c -> is_space c = false.
Proof.
  induction s as [|c' s IH]; [done|]. simpl.
  destruct (is_space c') eqn:E; [done|]. simpl. by intros [= <-].
Qed.

Lemma lstrip_last s : lstrip s <> [] -> last (lstrip s) = last s.
Proof.
  intros Hne. destruct (lstrip_suffix s) as [w Hw].
  rewrite Hw at 2. destruct (lstrip s) as [|c l] eqn:E; [done|].
  by rewrite last_app_cons.
Qed.

Lemma strip_head s c : head (strip s) = Some c -> is_space c = false.
Proof.
  unfold strip, rstrip. rewrite head_reverse. intros H.
  destruct (lstrip (reverse (lstrip s))) as [|c0 l0] eqn:E; [done|].
  rewrite <- E, lstrip_last, last_reverse in H by (by rewrite E).
  by apply lstrip_head in H.
Qed.

Lemma strip_last s c : last (strip s) = Some c -> is_space c = false.
Proof.
  unfold strip, rstrip. rewrite last_reverse. apply lstrip_head.
Qed.

Lemma strip_elem (s : str) c : c ∈ strip s -> c ∈ s.
Proof.
  unfold strip, rstrip. rewrite elem_of_reverse. intros H.
  destruct (lstrip_suffix (reverse (lstrip s))) as [w1 E1].
  assert (c ∈ reverse (lstrip s)) as H1
    by (rewrite E1, elem_of_app; by right).
  rewrite elem_of_reverse in H1.
  destruct (lstrip_suffix s) as [w2 E2].
  rewrite E2, elem_of_app. by right.
Qed.

Lemma split_tokens (sep : char) (s : str) :
  Forall (fun t => sep ∉ t) (split sep s).
Proof.
  induction s as [|c s IH]; simpl.
  - constructor; [apply not_elem_of_nil | constructor].
  - destruct (N.eqb_spec c sep) as [->|Hne].
    + constructor; [apply not_elem_of_nil | done].
    + destruct (split sep s) as [|h t]; inversion IH; subst.
      * constructor; [|constructor].
        apply not_elem_of_cons. split; [congruence | apply not_elem_of_nil].
      * constructor; [|done].
        apply not_elem_of_cons. split; [congruence | done].
Qed.

(** X17: every line of a crash state that the rule returns is not empty,
    holds no line feed, and neither starts nor ends with white space. *)
Theorem crash_state_clean d ls :
  _get_crash_state d = Ok ls -> Forall Rules.clean_line ls.
Proof.
  unfold _get_crash_state.
  destruct (capture d re_crash_state DOTALL 1 false) as [[raw|]|e];
    [|done|done].
  rewrite bind_Ok. cbn [as_str]. rewrite bind_Ok.
  intros [= <-]. rewrite crash_state_loop_spec. cbn [app].
  apply Forall_forall. intros l Hl. apply list_elem_of_In in Hl.
  apply List.filter_In in Hl as [Hl Hne].
  apply List.in_map_iff in Hl as (line & <- & Hline).
  apply list_elem_of_In in Hline.
  pose proof (split_tokens LF raw) as Htok.
  rewrite Forall_forall in Htok. specialize (Htok _ Hline).
  split; [|split; [|split]].
  - intros E. rewrite E in Hne. done.
  - intros Hin. by apply Htok, strip_elem.
  - apply strip_head.
  - apply strip_last.
Qed.
End CleanLines.

Lemma crash_state_clean_witness :
  Forall Rules.clean_line [lit "top frame"; lit "middle"; lit "bottom"].
Proof.
  apply (@crash_state_clean ascii_only text_crash_block).
  vm_compute. reflexivity.
Defined.

(** ** The fixed commits rule and the authors of the comments *)

Section FixedAuthors.
Context {U : Unicode}.

Lemma fixed_commits_loop_filter r comments :
  fixed_commits_loop r comments None
  = fixed_commits_loop r
      (filter (fun c => comment_author c = lit "ClusterFuzz-External")
              comments) None.
Proof.
  induction comments as [|c comments IH]; [done|].
  rewrite filter_cons. cbn [fixed_commits_loop].
  destruct (decide (comment_author c = lit "ClusterFuzz-External")) as [E|E].
  - cbn [fixed_commits_loop].
    rewrite bool_decide_eq_false_2 by (by intros []).
    destruct (Re.search NOFLAGS r (comment_body c)); [done | exact IH].
  - rewrite bool_decide_eq_true_2 by done. exact IH.
Qed.

Lemma fixed_commits_loop_sound r comments v :
  Re.sets_group r = true ->
  (exists w, fixed_commits_loop r comments None = Ok w)
  /\ (fixed_commits_loop r comments None = Ok (Some v) ->
      exists c m, c ∈ comments
                  /\ comment_author c = lit "ClusterFuzz-External"
                  /\ Re.search NOFLAGS r (comment_body c) = Some m
                  /\ Re.m_group1 m = Some v).
Proof.
  intros Hr. induction comments as [|c comments [IH1 IH2]].
  - split; [by eexists | done].
  - cbn [fixed_commits_loop].
    destruct (bool_decide _) eqn:Ea.
    + split; [done|]. intros (c' & m & Hin & H)%IH2.
      exists c', m. split; [by right | done].
    + apply bool_decide_eq_false in Ea. apply dec_stable in Ea.
      destruct (Re.search NOFLAGS r (comment_body c)) as [m|] eqn:Es.
      * pose proof (search_group1 _ _ _ _ Hr Es) as (_ & -> & _).
        split; [by eexists|]. intros [= Hg].
        exists c, m. split; [by left | done].
      * split; [done|]. intros (c' & m & Hin & H)%IH2.
        exists c', m. split; [by right | done].
Qed.

(** X18: the fixed commits rule never raises, only reads the comments
    whose author is exactly "ClusterFuzz-External" (the others may be
    removed without changing its answer), and a url it returns was found
    by the pattern of the id in the body of such a comment. *)
Theorem fixed_commits_authors comments id :
  (exists w, _get_fixed_commits_url comments id = Ok w)
  /\ _get_fixed_commits_url comments id
     = _get_fixed_commits_url
         (filter (fun c => comment_author c = lit "ClusterFuzz-External")
                 comments) id
  /\ (forall v, _get_fixed_commits_url comments id = Ok (Some v) ->
        exists c m, c ∈ comments
                    /\ comment_author c = lit "ClusterFuzz-External"
                    /\ Re.search NOFLAGS (Spec.fixed_pattern id)
                                 (comment_body c) = Some m
                    /\ Re.m_group1 m = Some v).
Proof.
  unfold _get_fixed_commits_url. fold (Spec.fixed_pattern id).
  split; [|split].
  - by apply (fixed_commits_loop_sound _ _ []), fixed_pattern_sets_group.
  - apply fixed_commits_loop_filter.
  - intros v. by apply fixed_commits_loop_sound, fixed_pattern_sets_group.
Qed.
End FixedAuthors.

Lemma fixed_commits_authors_witness :
  exists c m,
    c ∈ [comment_unrelated; comment_fuzzy_author; comment_verified]
    /\ comment_author c = lit "ClusterFuzz-External"
    /\ @Re.search ascii_only NOFLAGS (Spec.fixed_pattern 20000)
                  (comment_body c) = Some m
    /\ Re.m_group1 m = Some (lit "abcd1234").
Proof.
  destruct (@fixed_commits_authors ascii_only
              [comment_unrelated; comment_fuzzy_author; comment_verified]
              20000%Z) as (_ & _ & H).
  apply H. vm_compute. reflexivity.
Defined.

(** ** The tokens the rules return *)

Section Tokens.
Context {U : Unicode}.

(** X19: up to id 135 the project that is returned holds no underscore,
    and it is the end of the trimmed job type: all of it, or what follows
    its last underscore. *)
Theorem project_token d id p :
  (id <= 135)%Z ->
  _get_project d id = Ok (Some p) ->
  (chr "_" ∉ p)
  /\ exists jt a,
       capture d re_job_type NOFLAGS 1 false = Ok (Some jt)
       /\ strip jt = a ++ p
       /\ (a = [] \/ exists a', a = a' ++ [chr "_"]).
Proof.
  intros Hid. unfold _get_project, _get_jobtype.
  destruct (Z.leb_spec id 135); [|lia].
  destruct (capture d re_job_type NOFLAGS 1 false) as [[jt|]|e];
    [|done|done].
  rewrite bind_Ok. cbn [as_str]. rewrite bind_Ok. unfold item_last.
  destruct (last_sep (chr "_") (strip jt)) as [Hno|(a & b & E & Hb)].
  - rewrite split_no_sep by done. cbn [last]. rewrite bind_Ok.
    intros [= <-]. split; [done|]. exists jt, []. eauto.
  - rewrite E, split_app_sep, (split_no_sep _ b), last_snoc by done.
    rewrite bind_Ok. intros [= <-]. split; [done|].
    exists jt, (a ++ [chr "_"]). split; [done|].
    split; [by rewrite E, <- app_assoc | eauto].
Qed.

Lemma before_prefix (sep : char) (s : str) :
  (sep ∉ Spec.before sep s)
  /\ exists rest, s = Spec.before sep s ++ rest
                  /\ (rest = [] \/ exists rest', rest = sep :: rest').
Proof.
  induction s as [|c s (Hno & rest & E & Hrest)]; simpl.
  - split; [apply not_elem_of_nil|]. exists []. eauto.
  - destruct (N.eqb_spec c sep) as [->|Hne].
    + split; [apply not_elem_of_nil|]. exists (sep :: s). eauto.
    + split; [by apply not_elem_of_cons|].
      exists rest. split; [|done]. simpl. by rewrite <- E.
Qed.

(** X20: up to id 16307 the fuzzing engine that is returned is
    "js_fuzzer", or one of "afl", "libFuzzer" and "honggfuzz", or the
    start of the job type up to its first underscore, in which case it
    holds no underscore. *)
Theorem fuzzing_engine_values d id e :
  (id <= 16307)%Z ->
  _get_fuzzing_engine d id = Ok (Some e) ->
  e ∈ [lit "js_fuzzer"; lit "afl"; lit "libFuzzer"; lit "honggfuzz"]
  \/ ((chr "_" ∉ e)
      /\ exists jt rest,
           capture d re_job_type NOFLAGS 1 false = Ok (Some jt)
           /\ jt = e ++ rest
           /\ (rest = [] \/ exists rest', rest = chr "_" :: rest')).
Proof.
  intros Hid. unfold _get_fuzzing_engine, _get_jobtype.
  destruct (contains _ d); [intros [= <-]; left; by left|].
  destruct (Z.leb_spec id 16307); [|lia].
  destruct (capture d re_job_type NOFLAGS 1 false) as [[jt|]|e0];
    [|done|done].
  rewrite bind_Ok. cbn [as_str]. rewrite bind_Ok.
  destruct (startswith _ jt); [intros [= <-]; left; right; by left|].
  destruct (startswith _ jt); [intros [= <-]; left; right; right; by left|].
  destruct (startswith _ jt);
    [intros [= <-]; left; right; right; right; by left|].
  rewrite item_split_first, bind_Ok. intros [= <-]. right.
  unfold Spec.first_token.
  destruct (before_prefix (chr "_") jt) as (Hno & rest & E & Hrest).
  split; [done|]. exists jt, rest. done.
Qed.
End Tokens.

Lemma project_token_witness :
  (chr "_" ∉ lit "alpha")
  /\ exists jt a,
       @capture ascii_only text_job_padded re_job_type NOFLAGS 1 false
       = Ok (Some jt)
       /\ strip jt = a ++ lit "alpha"
       /\ (a = [] \/ exists a', a = a' ++ [chr "_"]).
Proof.
  apply (@project_token ascii_only text_job_padded 135%Z).
  - lia.
  - vm_compute. reflexivity.
Defined.

Lemma fuzzing_engine_values_witness :
  lit "libFuzzer" ∈ [lit "js_fuzzer"; lit "afl"; lit "libFuzzer"; lit "honggfuzz"]
  \/ ((chr "_" ∉ lit "libFuzzer")
      /\ exists jt rest,
           @capture ascii_only text_job_and_engine re_job_type NOFLAGS 1 false
           = Ok (Some jt)
           /\ jt = lit "libFuzzer" ++ rest
           /\ (rest = [] \/ exists rest', rest = chr "_" :: rest')).
Proof.
  apply (@fuzzing_engine_values ascii_only text_job_and_engine 16307%Z).
  - lia.
  - vm_compute. reflexivity.
Defined.

(** ** The report date *)

Section ReportDate.
Context {U : Unicode}.

(** X21: a report date that is returned stands in the text between
    "Reported by ClusterFuzz-External on " and " Project Member ", which a
    line feed or a dollar sign follows; it is not empty and holds no line
    feed.  The helper never returns [None], and raises on a text without
    its first words. *)
Theorem report_date_sound d :
  (forall v, _get_report_date d = Ok v ->
     exists date pre t rest,
       v = Some date
       /\ d = pre ++ lit "Reported by ClusterFuzz-External on " ++ date
              ++ lit " Project Member " ++ t :: rest
       /\ (t = LF \/ t = chr "$") /\ date <> [] /\ (LF ∉ date))
  /\ (~ (exists a b, d = a ++ lit "Reported by ClusterFuzz-External on " ++ b) ->
      _get_report_date d = Raise (Warning re_report_date d 1)).
Proof.
  unfold _get_report_date, capture. split.
  - intros v.
    destruct (Re.search NOFLAGS re_report_date d) as [m|] eqn:E; [|done].
    apply search_Some in E as (pre & b & -> & E).
    apply match_at_Some in E as [Hre [s' Hm]].
    unfold Re.group. rewrite Hre.
    change (Re.has_group re_report_date) with true. cbv iota.
    intros [= <-]. unfold re_report_date in Hm.
    apply matches_cat_inv in Hm as (s1 & g1 & H1 & H2).
    apply matches_lit_inv in H1 as [-> ->].
    apply matches_cat_inv in H2 as (s2 & g2 & H3 & H4).
    apply matches_grp_inv in H3 as [[g0 H3] ->].
    apply matches_rep_inv in H3 as (w & -> & Hw & Hlo & _).
    apply matches_cat_inv in H4 as (s3 & g3 & H5 & H6).
    apply matches_lit_inv in H5 as [-> ->].
    apply matches_one_inv in H6 as (t & -> & Ht & E).
    rewrite E. exists w, pre, t, s'.
    split.
    { f_equal. rewrite length_app.
      match goal with |- take ?n _ = _ =>
        replace n with (length w) by lia end.
      apply take_app_length. }
    split; [done|].
    split; [exact (proj1 (nl_or_dollar_match NOFLAGS t) Ht)|].
    split; [intros ->; simpl in Hlo; lia | by apply dot_match].
  - intros Hno. unfold re_report_date.
    by rewrite search_without_lit.
Qed.
End ReportDate.

Lemma report_date_sound_witness :
  exists date pre t rest,
    Some (lit "Mon, Jan 6, 2020") = Some date
    /\ text_report_date
       = pre ++ lit "Reported by ClusterFuzz-External on " ++ date
         ++ lit " Project Member " ++ t :: rest
    /\ (t = LF \/ t = chr "$") /\ date <> [] /\ (LF ∉ date).
Proof.
  destruct (@report_date_sound ascii_only text_report_date) as [H _].
  apply H. vm_compute. reflexivity.
Defined.
